(** * BUMP_code: time-series helpers of [src/utils.py]

    The module has two functions over numpy arrays:
    - [zScore X dim]: [(X - nanmean(X, dim)) / (nanstd(X, dim) + 1e-7)];
    - [moving_average X w]: [np.convolve(X, np.ones(w), 'valid') / w].

    The functions are written over an interface [Arith] of the arithmetic
    they use and read at IEEE 754 binary64, as specified by the Standard
    Library's [SpecFloat] (round to nearest even, one NaN, signed zeros and
    infinities): the arithmetic numpy runs on [float64] arrays.

    numpy does not fix the order in which a long sum is added up: it
    depends on the memory layout of the array and on the build (pairwise
    blocks, vector units, BLAS).  The order is therefore a parameter
    ([Order]): short sums are added from left to right, as every numpy loop
    does, and a long sum is any grouping of the entries.  Every theorem
    holds for every order.

    numpy itself is not part of the repository.  Its primitives ([nanmean],
    [nanstd], broadcasting, [convolve], [ones]) are modelled from numpy's
    sources and documentation, as noted at each definition.  The branch of
    [zScore] for a pandas DataFrame calls [DataFrame.to_numpy], which
    belongs to pandas and is not modelled: the functions below take the
    array. *)

From Stdlib Require Import ZArith List Bool Lia Arith Permutation.
From Stdlib Require Import Floats.SpecFloat.
Import ListNotations.

Set Implicit Arguments.

(** ** The arithmetic interface *)

Class Arith (F : Type) : Type := {
  fzero : F;                 (* 0.0 *)
  fone : F;                  (* 1.0, the entries of np.ones *)
  fnan : F;                  (* np.nan *)
  feps : F;                  (* the literal 1e-7 *)
  fadd : F -> F -> F;
  fsub : F -> F -> F;
  fmul : F -> F -> F;
  fdiv : F -> F -> F;
  fsqrt : F -> F;
  fisnan : F -> bool;        (* np.isnan *)
  fof_nat : nat -> F         (* conversion of an integer count to float *)
}.

(** ** The order of summation *)

(** The products that a dot product adds up. *)
Definition products {F} {A : Arith F} (a v : list F) : list F :=
  map (fun p => fmul (fst p) (snd p)) (combine a v).

(** [sums_to l s]: [s] is a floating-point sum of the entries of [l], taken
    in some order and grouped in some way, possibly with accumulators that
    start at 0.0. *)
Inductive sums_to {F} {A : Arith F} : list F -> F -> Prop :=
| sums_nil : sums_to [] fzero
| sums_one (x : F) : sums_to [x] x
| sums_split (l l1 l2 : list F) (s1 s2 : F) :
    Permutation l (l1 ++ l2) -> sums_to l1 s1 -> sums_to l2 s2 ->
    sums_to l (fadd s1 s2).

(** What numpy leaves open.  [long_sum] is [np.add.reduce] over a lane of
    eight or more entries (pairwise blocks when the lane is contiguous, a
    plain loop when it is strided).  [blas_dot] is the dot product that
    [correlate] hands to BLAS for a kernel of more than eleven entries;
    when one operand is all ones the products are exact, fused or not, and
    the result is a sum of the other operand's entries. *)
Class Order (F : Type) {A : Arith F} : Type := {
  long_sum : list F -> F;
  long_sum_spec : forall l, sums_to l (long_sum l);
  blas_dot : list F -> list F -> F;
  blas_dot_spec : forall a v,
    Forall (eq fone) a \/ Forall (eq fone) v ->
    sums_to (products a v) (blas_dot a v)
}.

Arguments Order F {A}.

(** ** numpy arrays: a shape and the elements in C (row-major) order *)

Record ndarray (F : Type) : Type := mk_ndarray {
  shape : list nat;
  data : list F
}.

Definition prod_shape (s : list nat) : nat := fold_right Nat.mul 1 s.

(** An array holds as many elements as its shape says. *)
Definition wf_array {F} (X : ndarray F) : Prop :=
  length (data X) = prod_shape (shape X).

(** The axis argument of a reduction.  numpy's [normalize_axis_index]: an
    axis is in range when [-ndim <= axis < ndim]; negative axes count from
    the end; anything else raises [AxisError] (here [None]).  On a
    0-dimensional array the reductions also accept the axes 0 and -1. *)
Definition normalize_axis (ndim : nat) (axis : Z) : option nat :=
  match ndim with
  | O => if ((axis =? 0) || (axis =? -1))%Z then Some 0 else None
  | S _ =>
      if ((0 <=? axis) && (axis <? Z.of_nat ndim))%Z then Some (Z.to_nat axis)
      else if ((- Z.of_nat ndim <=? axis) && (axis <? 0))%Z
           then Some (Z.to_nat (axis + Z.of_nat ndim))
           else None
  end.

(** The axes a reduction accepts, once normalized. *)
Definition axis_ok (s : list nat) (d : nat) : Prop :=
  d < length s \/ (s = [] /\ d = 0).

(** Position of axis [d] inside the row-major layout: [outer_size] slices
    before it, [axis_len] steps along it, [inner_size] elements after it.
    A 0-dimensional array is one lane of one element. *)
Definition outer_size (s : list nat) (d : nat) : nat := prod_shape (firstn d s).
Definition axis_len (s : list nat) (d : nat) : nat := nth d s 1.
Definition inner_size (s : list nat) (d : nat) : nat := prod_shape (skipn (S d) s).

Definition flat_index (s : list nat) (d o k i : nat) : nat :=
  (o * axis_len s d + k) * inner_size s d + i.

(** Shape of a reduction along [d] with [keepdims=True]; a 0-dimensional
    array stays 0-dimensional. *)
Definition keepdims_shape (s : list nat) (d : nat) : list nat :=
  match s with
  | [] => []
  | _ :: _ => firstn d s ++ 1 :: skipn (S d) s
  end.

(** Index, in an array reduced along [d] with [keepdims=True], of the entry
    that broadcasting pairs with flat index [j] of the full array. *)
Definition broadcast_index (s : list nat) (d j : nat) : nat :=
  (j / (axis_len s d * inner_size s d)) * inner_size s d + j mod inner_size s d.

Section Numpy.
Context {F : Type} {A : Arith F} {O : Order F}.

(** *** One-dimensional primitives *)

(** [np.sum] over one lane ([np.add.reduce]).  The accumulator starts at
    0.0.  A lane of fewer than eight entries is added from left to right
    whatever its layout; a longer one in the order of [long_sum]. *)
Definition np_sum (l : list F) : F :=
  if Nat.ltb (length l) 8 then fold_left fadd l fzero else long_sum l.

(** [numpy.lib.nanfunctions._replace_nan(a, 0)]: a copy of the values with
    every NaN replaced by 0, and the mask of the replaced positions. *)
Definition replace_nan (l : list F) : list F * list bool :=
  (map (fun x => if fisnan x then fzero else x) l, map fisnan l).

(** [np.sum(~mask)]: how many entries are not NaN. *)
Definition count_valid (mask : list bool) : nat :=
  length (filter negb mask).

(** [np.nanmean]: sum of the NaN-free copy divided by the count. *)
Definition nanmean (l : list F) : F :=
  let '(arr, mask) := replace_nan l in
  fdiv (np_sum arr) (fof_nat (count_valid mask)).

(** [np.copyto(arr, 0, where=mask)]. *)
Fixpoint copyto_zero (arr : list F) (mask : list bool) : list F :=
  match arr, mask with
  | x :: arr', m :: mask' => (if m then fzero else x) :: copyto_zero arr' mask'
  | _, _ => arr
  end.

(** [np.nanvar] with [ddof = 0]: deviations from the mean of the non-NaN
    entries, zeroed again at the NaN positions, squared, summed and divided
    by the count; NaN when the count is zero. *)
Definition nanvar (l : list F) : F :=
  let '(arr, mask) := replace_nan l in
  let cnt := count_valid mask in
  let avg := fdiv (np_sum arr) (fof_nat cnt) in
  let dev := copyto_zero (map (fun x => fsub x avg) arr) mask in
  let sqr := map (fun v => fmul v v) dev in
  let var := fdiv (np_sum sqr) (fof_nat cnt) in
  if Nat.leb cnt 0 then fnan else var.

(** [np.nanstd]: square root of [np.nanvar]. *)
Definition nanstd (l : list F) : F := fsqrt (nanvar l).

(** *** Reductions along an axis and broadcasting *)

(** The elements of [X] along axis [d] at outer position [o] and inner
    position [i]. *)
Definition lane (X : ndarray F) (d o i : nat) : list F :=
  map (fun k => nth (flat_index (shape X) d o k i) (data X) fnan)
      (seq 0 (axis_len (shape X) d)).

(** A reduction [f] along axis [d] with [keepdims=True]. *)
Definition reduce_axis (f : list F -> F) (X : ndarray F) (d : nat) : ndarray F :=
  {| shape := keepdims_shape (shape X) d;
     data := flat_map (fun o => map (fun i => f (lane X d o i))
                                    (seq 0 (inner_size (shape X) d)))
                      (seq 0 (outer_size (shape X) d)) |}.

(** [X op M] where [M] has the shape of [X] with axis [d] collapsed to 1:
    broadcasting repeats [M] along axis [d]. *)
Definition broadcast_axis (op : F -> F -> F) (X M : ndarray F) (d : nat) : ndarray F :=
  {| shape := shape X;
     data := map (fun j => op (nth j (data X) fnan)
                              (nth (broadcast_index (shape X) d j) (data M) fnan))
                 (seq 0 (length (data X))) |}.

(** [M + c] for a Python float [c]. *)
Definition add_scalar (M : ndarray F) (c : F) : ndarray F :=
  {| shape := shape M; data := map (fun v => fadd v c) (data M) |}.

(** *** [zScore] (utils.py, line 29) on an ndarray with an integer axis:
    [(X - np.nanmean(X, dim, keepdims=True))
     / (np.nanstd(X, dim, keepdims=True) + 1e-7)]. *)
Definition zScore_ndarray (X : ndarray F) (dim : Z) : option (ndarray F) :=
  match normalize_axis (length (shape X)) dim with
  | None => None
  | Some d =>
      let mean := reduce_axis nanmean X d in
      let std := reduce_axis nanstd X d in
      Some (broadcast_axis fdiv (broadcast_axis fsub X mean d)
                           (add_scalar std feps) d)
  end.

(** The array expression of [zScore] once the axis is known to be [d]. *)
Definition zscore_array (X : ndarray F) (d : nat) : ndarray F :=
  broadcast_axis fdiv
    (broadcast_axis fsub X (reduce_axis nanmean X d) d)
    (add_scalar (reduce_axis nanstd X d) feps) d.

(** What [zScore] does to one entry [x] of a lane whose mean is [mu] and
    whose standard deviation is [sigma]. *)
Definition znorm (mu sigma : F) (x : F) : F :=
  fdiv (fsub x mu) (fadd sigma feps).

(** *** [np.convolve(a, v, 'valid')] and [np.ones] *)

(** [np.ones(w)] for [0 <= w]: [w] copies of 1.0.  (numpy raises when it
    cannot allocate [w] doubles; memory has no bound here.) *)
Definition np_ones (w : nat) : list F := repeat fone w.

(** The dot product that [correlate] runs at each offset.  For a kernel of
    at most eleven entries it is a loop: an accumulator that starts at 0.0
    and takes the products from left to right.  A longer kernel goes to the
    BLAS dot product. *)
Definition dot (a v : list F) : F :=
  if Nat.leb (length v) 11
  then fold_left (fun acc p => fadd acc (fmul (fst p) (snd p))) (combine a v) fzero
  else blas_dot a v.

(** [multiarray.correlate(a, v, 'valid')] for [length v <= length a]. *)
Definition correlate_valid (a v : list F) : list F :=
  map (fun i => dot (firstn (length v) (skipn i a)) v)
      (seq 0 (length a - length v + 1)).

(** [np.convolve(a, v, 'valid')]: the operands are swapped when [v] is the
    longer one, an empty operand raises [ValueError], and the convolution
    is the correlation with the reversed kernel. *)
Definition convolve_valid (a v : list F) : option (list F) :=
  let '(a, v) := if Nat.ltb (length a) (length v) then (v, a) else (a, v) in
  match a, v with
  | [], _ => None
  | _, [] => None
  | _, _ => Some (correlate_valid a (rev v))
  end.

(** *** [moving_average] (utils.py, lines 31-42), on a 1-D array.
    [np.ones(w)] raises for negative [w]. *)
Definition moving_average (X : list F) (w : Z) : option (list F) :=
  if (w <? 0)%Z then None
  else
    match convolve_valid X (np_ones (Z.to_nat w)) with
    | None => None
    | Some c => Some (map (fun v => fdiv v (fof_nat (Z.to_nat w))) c)
    end.

End Numpy.

(** ** The binary64 carrier *)

Module B64.
Definition prec : Z := 53.
Definition emax : Z := 1024.

(** Correctly rounded conversion of an integer. *)
Definition of_Z (z : Z) : spec_float := binary_normalize prec emax z 0 false.

Definition is_nan (x : spec_float) : bool :=
  match x with S754_nan => true | _ => false end.

(** A finite number: a zero, a subnormal or a normal number. *)
Definition is_finite (x : spec_float) : bool :=
  match x with S754_zero _ | S754_finite _ _ _ => true | _ => false end.

Definition is_zero (x : spec_float) : bool :=
  match x with S754_zero _ => true | _ => false end.

(** The elements of a [float64] array are canonical binary64 data. *)
Definition valid (x : spec_float) : Prop := valid_binary prec emax x = true.

(** The double that the literal [1e-7] denotes: the binary64 number
    nearest to 10^-7, 0x1.ad7f29abcaf48p-24. *)
Definition eps : spec_float := S754_finite false 7555786372591432 (-76).

(** Decimal literals [p/q], correctly rounded (used for test data). *)
Definition lit (p q : Z) : spec_float := SFdiv prec emax (of_Z p) (of_Z q).

(** [|a - b| <= tol], false when either side is NaN. *)
Definition within (tol a b : spec_float) : bool :=
  SFleb (SFabs (SFsub prec emax a b)) tol.

(** Numerical equality of array entries: IEEE [==], with NaN matching NaN
    (numpy's [array_equal(..., equal_nan=True)]). *)
Definition same (a b : spec_float) : bool :=
  (is_nan a && is_nan b) || SFeqb a b.

(** [|x| < 2^K]: a zero, or a finite number of at most [K] binary digits
    before the point. *)
Definition magnitude_le (K : Z) (x : spec_float) : Prop :=
  match x with
  | S754_zero _ => True
  | S754_finite _ m e => (Zpos (digits2_pos m) + e <= K)%Z
  | _ => False
  end.

(** [2^(K-1) <= |x|]: an infinity, or a finite number of at least [K]
    binary digits before the point. *)
Definition magnitude_ge (K : Z) (x : spec_float) : Prop :=
  match x with
  | S754_infinity _ => True
  | S754_finite _ m e => (K <= Zpos (digits2_pos m) + e)%Z
  | _ => False
  end.
End B64.

#[export] Instance Binary64 : Arith spec_float := {|
  fzero := S754_zero false;
  fone := B64.of_Z 1;
  fnan := S754_nan;
  feps := B64.eps;
  fadd := SFadd B64.prec B64.emax;
  fsub := SFsub B64.prec B64.emax;
  fmul := SFmul B64.prec B64.emax;
  fdiv := SFdiv B64.prec B64.emax;
  fsqrt := SFsqrt B64.prec B64.emax;
  fisnan := B64.is_nan;
  fof_nat := fun n => B64.of_Z (Z.of_nat n)
|}.

(** The order of a plain loop: every sum from left to right, starting at
    0.0.  It is one of the orders numpy uses (strided lanes, builds without
    BLAS), and the one at which the closed examples below are evaluated;
    their lanes and kernels are short, so that every order gives the same
    result on them. *)
Definition sequential_sum {F} {A : Arith F} (l : list F) : F :=
  fold_left fadd l fzero.

Definition sequential_dot {F} {A : Arith F} (a v : list F) : F :=
  fold_left (fun acc p => fadd acc (fmul (fst p) (snd p))) (combine a v) fzero.

#[export] Instance Sequential {F} {A : Arith F} : Order F | 100.
Proof.
  assert (Hsum : forall l l0 a, sums_to l0 a ->
                   sums_to (l0 ++ l) (fold_left fadd l a)).
  { induction l as [|x l IH]; intros l0 a H; simpl.
    - rewrite app_nil_r. exact H.
    - replace (l0 ++ x :: l) with ((l0 ++ [x]) ++ l)
        by (rewrite <- app_assoc; reflexivity).
      apply IH.
      apply (sums_split (l1 := l0) (l2 := [x]) (Permutation_refl _) H (sums_one x)). }
  refine {| long_sum := sequential_sum; blas_dot := sequential_dot |}.
  - intros l. exact (Hsum l [] fzero sums_nil).
  - intros a v _. unfold sequential_dot, products.
    assert (Hmap : forall (ps : list (F * F)) acc,
               fold_left (fun acc p => fadd acc (fmul (fst p) (snd p))) ps acc
               = fold_left fadd (map (fun p => fmul (fst p) (snd p)) ps) acc).
    { induction ps as [|p ps IH]; intros acc; simpl; [reflexivity|apply IH]. }
    rewrite Hmap. exact (Hsum _ [] fzero sums_nil).
Defined.

(** ** Predicates used to state the properties *)

(** No entry of the array is missing. *)
Definition no_missing {F} {A : Arith F} (X : ndarray F) : Prop :=
  Forall (fun x => fisnan x = false) (data X).

Fixpoint shape_eqb (a b : list nat) : bool :=
  match a, b with
  | [], [] => true
  | x :: a', y :: b' => Nat.eqb x y && shape_eqb a' b'
  | _, _ => false
  end.

(** One-dimensional [float64] array with the given entries. *)
Definition array1 {F} (l : list F) : ndarray F :=
  {| shape := [length l]; data := l |}.

(** Every lane of [Y] along [d] satisfies [P]. *)
Definition all_lanes {F} {A : Arith F} (P : list F -> bool) (Y : ndarray F) (d : nat) : bool :=
  forallb (fun o => forallb (fun i => P (lane Y d o i))
                            (seq 0 (inner_size (shape Y) d)))
          (seq 0 (outer_size (shape Y) d)).

Section Binary64Predicates.
Context {O : Order spec_float}.

(** "The output has the shape of [X], mean 0 and standard deviation 1 along
    the axis, both within 1e-7", checked in binary64 on the output of
    [zScore]. *)
Definition unit_statistics_b64 (X : ndarray spec_float) (dim : Z) : bool :=
  match zScore_ndarray X dim, normalize_axis (length (shape X)) dim with
  | Some Y, Some d =>
      shape_eqb (shape Y) (shape X) &&
      all_lanes (fun l => B64.within B64.eps (nanmean l) fzero &&
                          B64.within B64.eps (nanstd l) fone) Y d
  | _, _ => false
  end.

(** Entrywise numerical equality of two binary64 arrays of one shape. *)
Definition same_array (a b : ndarray spec_float) : bool :=
  shape_eqb (shape a) (shape b) &&
  Nat.eqb (length (data a)) (length (data b)) &&
  forallb (fun p => B64.same (fst p) (snd p)) (combine (data a) (data b)).

Definition same_result (a b : option (ndarray spec_float)) : bool :=
  match a, b with
  | Some x, Some y => same_array x y
  | None, None => true
  | _, _ => false
  end.

(** "The mean along the axis is 0 and the standard deviation is 1", checked
    in binary64 with IEEE equality. *)
Definition normalized_b64 (X : ndarray spec_float) (d : nat) : bool :=
  all_lanes (fun l => SFeqb (nanmean l) fzero && SFeqb (nanstd l) fone) X d.

(** "[zScore X dim] equals [X] within 1e-7", entry by entry, in binary64. *)
Definition close_to_input_b64 (X : ndarray spec_float) (dim : Z) : bool :=
  match zScore_ndarray X dim with
  | Some Y =>
      Nat.eqb (length (data Y)) (length (data X)) &&
      forallb (fun p => B64.within B64.eps (fst p) (snd p))
              (combine (data Y) (data X))
  | None => false
  end.

(** "[zScore (X + c) dim] equals [zScore X dim]", checked in binary64. *)
Definition translation_invariant_b64 (X : ndarray spec_float) (c : spec_float)
    (dim : Z) : bool :=
  same_result (zScore_ndarray (add_scalar X c) dim) (zScore_ndarray X dim).

(** "The output is missing exactly where [X] is missing and finite
    elsewhere", checked in binary64 on the output of [zScore]. *)
Definition missing_preserved_b64 (X : ndarray spec_float) (dim : Z) : bool :=
  match zScore_ndarray X dim with
  | Some Y =>
      Nat.eqb (length (data Y)) (length (data X)) &&
      forallb (fun p => if B64.is_nan (snd p) then B64.is_nan (fst p)
                        else B64.is_finite (fst p))
              (combine (data Y) (data X))
  | None => false
  end.


End Binary64Predicates.

(** ** The smoother's contract, in the spec's words *)

(** The window [X[i : i+w]]. *)
Definition window {F} (X : list F) (i w : nat) : list F :=
  firstn w (skipn i X).

(** The mean of a window, added up from left to right: its entries summed
    from 0.0, divided by their number. *)
Definition window_mean {F} {A : Arith F} (l : list F) : F :=
  fdiv (fold_left fadd l fzero) (fof_nat (length l)).

(** [y] is a mean of the window [l]: a floating-point sum of its entries, in
    some order, divided by their number. *)
Definition is_mean_of {F} {A : Arith F} (l : list F) (y : F) : Prop :=
  exists s, sums_to l s /\ y = fdiv s (fof_nat (length l)).

(** * Lemmas *)

(** ** Layout lemmas: lanes, reductions and broadcasting *)

Lemma prod_shape_app (a b : list nat) :
  prod_shape (a ++ b) = prod_shape a * prod_shape b.
Proof.
  induction a as [|x a IH]; simpl.
  - lia.
  - rewrite IH. lia.
Qed.

Lemma shape_split (s : list nat) (d : nat) :
  d < length s -> s = firstn d s ++ nth d s 1 :: skipn (S d) s.
Proof.
  revert d. induction s as [|x s IH]; intros d Hd; simpl in Hd.
  - lia.
  - destruct d as [|d]; simpl.
    + reflexivity.
    + f_equal. apply IH. lia.
Qed.

Lemma prod_shape_axis (s : list nat) (d : nat) :
  axis_ok s d ->
  prod_shape s = outer_size s d * (axis_len s d * inner_size s d).
Proof.
  intros [Hd|[-> ->]]; [|reflexivity].
  unfold outer_size, axis_len, inner_size.
  rewrite (shape_split s Hd) at 1.
  rewrite prod_shape_app. reflexivity.
Qed.

Lemma keepdims_shape_length (s : list nat) (d : nat) :
  axis_ok s d -> length (keepdims_shape s d) = length s.
Proof.
  intros [Hd|[-> ->]]; [|reflexivity].
  unfold keepdims_shape. destruct s as [|x s]; [reflexivity|].
  rewrite (shape_split (x :: s) Hd) at 3.
  rewrite !length_app. reflexivity.
Qed.

Lemma flat_index_lt (s : list nat) (d o k i : nat) :
  axis_ok s d ->
  o < outer_size s d -> k < axis_len s d -> i < inner_size s d ->
  flat_index s d o k i < prod_shape s.
Proof.
  intros Hd Ho Hk Hi. rewrite (prod_shape_axis Hd). unfold flat_index.
  set (n := axis_len s d) in *. set (m := inner_size s d) in *.
  set (N := outer_size s d) in *.
  assert (H1 : k * m + i < n * m) by nia.
  assert (H2 : (o * n + k) * m + i = o * (n * m) + (k * m + i)) by nia.
  rewrite H2. nia.
Qed.

Lemma broadcast_flat_index (s : list nat) (d o k i : nat) :
  k < axis_len s d -> i < inner_size s d ->
  broadcast_index s d (flat_index s d o k i) = o * inner_size s d + i.
Proof.
  intros Hk Hi. unfold broadcast_index, flat_index.
  set (n := axis_len s d) in *. set (m := inner_size s d) in *.
  assert (Hq : (o * n + k) * m + i = (n * m) * o + (k * m + i)) by nia.
  assert (Hr : k * m + i < n * m) by nia.
  rewrite <- (Nat.div_unique _ _ _ _ Hr Hq).
  assert (Hq' : (o * n + k) * m + i = m * (o * n + k) + i) by nia.
  rewrite <- (Nat.mod_unique _ _ _ _ Hi Hq').
  reflexivity.
Qed.

(** Every flat position lies on exactly one lane. *)
Lemma flat_index_decompose (s : list nat) (d j : nat) :
  axis_ok s d -> j < prod_shape s ->
  exists o k i,
    o < outer_size s d /\ k < axis_len s d /\ i < inner_size s d /\
    j = flat_index s d o k i.
Proof.
  intros Hd Hj. rewrite (prod_shape_axis Hd) in Hj. unfold flat_index.
  set (n := axis_len s d) in *. set (m := inner_size s d) in *.
  set (N := outer_size s d) in *.
  assert (Hm : m <> 0) by (intros E; rewrite E in Hj; lia).
  assert (Hn : n <> 0) by (intros E; rewrite E in Hj; lia).
  exists (j / m / n), ((j / m) mod n), (j mod m).
  pose proof (Nat.div_mod_eq j m) as E1.
  pose proof (Nat.div_mod_eq (j / m) n) as E2.
  pose proof (Nat.mod_upper_bound j m Hm) as B1.
  pose proof (Nat.mod_upper_bound (j / m) n Hn) as B2.
  remember (j mod m) as b eqn:Eb. remember (j / m) as a eqn:Ea.
  remember (a mod n) as e eqn:Ee. remember (a / n) as c eqn:Ec.
  clear Eb Ea Ee Ec.
  repeat split; try assumption.
  - destruct (Nat.lt_ge_cases c N) as [Hlt|Hge]; [exact Hlt|].
    exfalso. assert (n * N <= n * c) by nia. nia.
  - rewrite E1, E2. ring.
Qed.

Lemma nth_chunks {B : Type} (g : nat -> list B) (m : nat) (dflt : B) :
  (forall o, length (g o) = m) ->
  forall N start o i, o < N -> i < m ->
    nth (o * m + i) (flat_map g (seq start N)) dflt = nth i (g (start + o)) dflt.
Proof.
  intros Hlen. induction N as [|N IH]; intros start o i Ho Hi.
  - lia.
  - simpl. destruct o as [|o].
    + simpl. rewrite app_nth1 by (rewrite Hlen; exact Hi).
      rewrite Nat.add_0_r. reflexivity.
    + rewrite app_nth2 by (rewrite Hlen; simpl; lia).
      rewrite Hlen.
      replace (S o * m + i - m) with (o * m + i) by (simpl; lia).
      rewrite IH by lia. f_equal. f_equal. lia.
Qed.

Lemma length_chunks {B : Type} (g : nat -> list B) (m : nat) :
  (forall o, length (g o) = m) ->
  forall N start, length (flat_map g (seq start N)) = N * m.
Proof.
  intros Hlen. induction N as [|N IH]; intros start; simpl.
  - reflexivity.
  - rewrite length_app, Hlen, IH. reflexivity.
Qed.

Lemma nth_map_seq {B : Type} (g : nat -> B) (n j : nat) (dflt : B) :
  j < n -> nth j (map g (seq 0 n)) dflt = g j.
Proof.
  intros Hj.
  rewrite (nth_indep _ dflt (g 0)) by (rewrite length_map, length_seq; exact Hj).
  rewrite (map_nth g). rewrite seq_nth by exact Hj. reflexivity.
Qed.

Lemma ndarray_eq {F : Type} (a b : ndarray F) :
  shape a = shape b -> data a = data b -> a = b.
Proof. destruct a, b. simpl. intros -> ->. reflexivity. Qed.

Lemma prod_shape_zero (s : list nat) : In 0 s -> prod_shape s = 0.
Proof.
  induction s as [|x s IH]; simpl; intros H; [contradiction|].
  destruct H as [->|H]; [reflexivity|]. rewrite (IH H). lia.
Qed.

Lemma normalize_axis_ok (s : list nat) (dim : Z) (d : nat) :
  normalize_axis (length s) dim = Some d -> axis_ok s d.
Proof.
  unfold normalize_axis, axis_ok. destruct s as [|x s].
  - cbn [length]. destruct ((dim =? 0) || (dim =? -1))%Z; [|discriminate].
    intros H. injection H as <-. right. split; reflexivity.
  - cbn [length]. cbv iota. set (n := S (length s)).
    destruct ((0 <=? dim) && (dim <? Z.of_nat n))%Z eqn:E1.
    + intros H. injection H as <-. left.
      apply andb_true_iff in E1. destruct E1 as [E1 E2].
      apply Z.leb_le in E1. apply Z.ltb_lt in E2. lia.
    + destruct ((- Z.of_nat n <=? dim) && (dim <? 0))%Z eqn:E2.
      * intros H. injection H as <-. left.
        apply andb_true_iff in E2. destruct E2 as [E2 E3].
        apply Z.leb_le in E2. apply Z.ltb_lt in E3. lia.
      * discriminate.
Qed.

Section Layout.
Context {F : Type} {A : Arith F} {O : Order F}.

Lemma reduce_axis_nth (f : list F -> F) (X : ndarray F) (d o i : nat) (dflt : F) :
  o < outer_size (shape X) d -> i < inner_size (shape X) d ->
  nth (o * inner_size (shape X) d + i) (data (reduce_axis f X d)) dflt
  = f (lane X d o i).
Proof.
  intros Ho Hi. unfold reduce_axis. simpl.
  rewrite (@nth_chunks F _ (inner_size (shape X) d)); try assumption.
  - simpl.
    rewrite (nth_indep _ dflt (f (lane X d o 0))) by (rewrite length_map, length_seq; exact Hi).
    rewrite (map_nth (fun i0 => f (lane X d o i0))).
    rewrite seq_nth by exact Hi. reflexivity.
  - intros o'. rewrite length_map, length_seq. reflexivity.
Qed.

Lemma reduce_axis_length (f : list F -> F) (X : ndarray F) (d : nat) :
  length (data (reduce_axis f X d))
  = outer_size (shape X) d * inner_size (shape X) d.
Proof.
  unfold reduce_axis. simpl.
  apply length_chunks. intros o'. rewrite length_map, length_seq. reflexivity.
Qed.

Lemma reduce_axis_wf (f : list F -> F) (X : ndarray F) (d : nat) :
  axis_ok (shape X) d -> wf_array (reduce_axis f X d).
Proof.
  intros Hd. unfold wf_array. rewrite reduce_axis_length.
  unfold reduce_axis. cbn [shape].
  destruct Hd as [Hd|[E ->]].
  - unfold keepdims_shape. destruct (shape X) as [|x s] eqn:Es; [simpl in Hd; lia|].
    rewrite prod_shape_app.
    change (prod_shape (1 :: skipn (S d) (x :: s)))
      with (1 * prod_shape (skipn (S d) (x :: s))).
    unfold outer_size, inner_size. lia.
  - rewrite E. reflexivity.
Qed.

Lemma lane_length (X : ndarray F) (d o i : nat) :
  length (lane X d o i) = axis_len (shape X) d.
Proof. unfold lane. rewrite length_map, length_seq. reflexivity. Qed.

Lemma zScore_in_range (X : ndarray F) (dim : Z) (d : nat) :
  normalize_axis (length (shape X)) dim = Some d ->
  zScore_ndarray X dim = Some (zscore_array X d).
Proof. intros H. unfold zScore_ndarray. rewrite H. reflexivity. Qed.

Lemma zscore_array_shape (X : ndarray F) (d : nat) :
  shape (zscore_array X d) = shape X.
Proof. reflexivity. Qed.

Lemma zscore_array_length (X : ndarray F) (d : nat) :
  length (data (zscore_array X d)) = length (data X).
Proof.
  unfold zscore_array, broadcast_axis. simpl.
  rewrite !length_map, !length_seq. reflexivity.
Qed.

Lemma zscore_array_wf (X : ndarray F) (d : nat) :
  wf_array X -> wf_array (zscore_array X d).
Proof.
  unfold wf_array. rewrite zscore_array_length, zscore_array_shape.
  intros H. exact H.
Qed.

(** The entry of the output at lane position [(o, k, i)]. *)
Lemma zscore_array_nth (X : ndarray F) (d o k i : nat) (dflt : F) :
  wf_array X -> axis_ok (shape X) d ->
  o < outer_size (shape X) d -> k < axis_len (shape X) d ->
  i < inner_size (shape X) d ->
  nth (flat_index (shape X) d o k i) (data (zscore_array X d)) dflt
  = znorm (nanmean (lane X d o i)) (nanstd (lane X d o i))
          (nth (flat_index (shape X) d o k i) (data X) fnan).
Proof.
  intros Hwf Hd Ho Hk Hi.
  pose proof (flat_index_lt Hd Ho Hk Hi) as Hj.
  rewrite <- Hwf in Hj.
  pose proof (broadcast_flat_index (shape X) d o Hk Hi) as Hb.
  set (j := flat_index (shape X) d o k i) in *.
  assert (Hoi : o * inner_size (shape X) d + i
                < outer_size (shape X) d * inner_size (shape X) d) by nia.
  unfold zscore_array, broadcast_axis, add_scalar. cbn [data shape].
  rewrite !length_map, !length_seq.
  rewrite nth_map_seq by exact Hj.
  rewrite nth_map_seq by exact Hj.
  rewrite Hb.
  rewrite (nth_indep (map _ _) fnan (fadd fnan feps))
    by (rewrite length_map, reduce_axis_length; exact Hoi).
  rewrite (map_nth (fun v => fadd v feps)).
  rewrite !reduce_axis_nth by assumption.
  reflexivity.
Qed.

(** Each lane of the output is the lane of the input, normalized with the
    lane's own mean and standard deviation. *)
Lemma zscore_array_lane (X : ndarray F) (d o i : nat) :
  wf_array X -> axis_ok (shape X) d ->
  o < outer_size (shape X) d -> i < inner_size (shape X) d ->
  lane (zscore_array X d) d o i
  = map (znorm (nanmean (lane X d o i)) (nanstd (lane X d o i)))
        (lane X d o i).
Proof.
  intros Hwf Hd Ho Hi. unfold lane at 1 4.
  rewrite zscore_array_shape, map_map.
  apply map_ext_in. intros k Hk. apply in_seq in Hk.
  apply zscore_array_nth; try assumption. lia.
Qed.

Lemma lane_nth (X : ndarray F) (d o k i : nat) :
  k < axis_len (shape X) d ->
  nth k (lane X d o i) fnan = nth (flat_index (shape X) d o k i) (data X) fnan.
Proof.
  intros Hk. unfold lane.
  exact (nth_map_seq (fun k0 => nth (flat_index (shape X) d o k0 i) (data X) fnan)
                     fnan Hk).
Qed.

Lemma lane_Forall (P : F -> Prop) (X : ndarray F) (d o i : nat) :
  wf_array X -> axis_ok (shape X) d ->
  o < outer_size (shape X) d -> i < inner_size (shape X) d ->
  Forall P (data X) -> Forall P (lane X d o i).
Proof.
  intros Hwf Hd Ho Hi HP. apply Forall_forall. intros x Hx.
  unfold lane in Hx. apply in_map_iff in Hx. destruct Hx as [k [<- Hk]].
  apply in_seq in Hk.
  rewrite Forall_forall in HP. apply HP. apply nth_In.
  rewrite Hwf. apply flat_index_lt; try assumption. lia.
Qed.

(** Every summation order gives a sum of the entries. *)
Lemma sums_to_fold_left (l l0 : list F) (a : F) :
  sums_to l0 a -> sums_to (l0 ++ l) (fold_left fadd l a).
Proof.
  revert l0 a. induction l as [|x l IH]; intros l0 a H; simpl.
  - rewrite app_nil_r. exact H.
  - replace (l0 ++ x :: l) with ((l0 ++ [x]) ++ l)
      by (rewrite <- app_assoc; reflexivity).
    apply IH.
    apply (sums_split (l1 := l0) (l2 := [x]) (Permutation_refl _) H (sums_one x)).
Qed.

Lemma np_sum_spec (l : list F) : sums_to l (np_sum l).
Proof.
  unfold np_sum. destruct (Nat.ltb (length l) 8).
  - exact (sums_to_fold_left l sums_nil).
  - apply long_sum_spec.
Qed.

Lemma fold_products (ps : list (F * F)) (acc : F) :
  fold_left (fun acc p => fadd acc (fmul (fst p) (snd p))) ps acc
  = fold_left fadd (map (fun p => fmul (fst p) (snd p)) ps) acc.
Proof.
  revert acc. induction ps as [|p ps IH]; intros acc; simpl; [reflexivity|apply IH].
Qed.

Lemma dot_spec (a v : list F) :
  Forall (eq fone) a \/ Forall (eq fone) v ->
  sums_to (products a v) (dot a v).
Proof.
  intros H. unfold dot. destruct (Nat.leb (length v) 11).
  - rewrite fold_products. exact (sums_to_fold_left _ sums_nil).
  - apply blas_dot_spec. exact H.
Qed.

End Layout.

(** * Binary64 facts

    Multiplying or dividing a canonical binary64 number by 1.0 returns it,
    and NaN propagates through the four operations. *)

Section Binary64Facts.
Local Open Scope Z_scope.

Lemma bounded_canonical m e :
  bounded 53 1024 m e = true ->
  fexp 53 1024 (Zpos (digits2_pos m) + e) = e /\ e <= 971.
Proof.
  unfold bounded, canonical_mantissa. intros H.
  apply andb_true_iff in H. destruct H as [H1 H2].
  apply Z.eqb_eq in H1. apply Z.leb_le in H2. split; [exact H1|exact H2].
Qed.

Lemma shr_fexp_canonical m e :
  fexp 53 1024 (Zpos (digits2_pos m) + e) = e ->
  shr_fexp 53 1024 (Zpos m) e loc_Exact
  = (Build_shr_record (Zpos m) false false, e).
Proof.
  intros H. unfold shr_fexp. simpl Zdigits2. rewrite H, Z.sub_diag. reflexivity.
Qed.

Lemma round_canonical s m e :
  bounded 53 1024 m e = true ->
  binary_round_aux 53 1024 s (Zpos m) e loc_Exact = S754_finite s m e.
Proof.
  intros H. destruct (@bounded_canonical _ _ H) as [Hc He].
  unfold binary_round_aux. rewrite (@shr_fexp_canonical _ _ Hc).
  cbn [shr_m loc_of_shr_record round_nearest_even].
  rewrite (@shr_fexp_canonical _ _ Hc). cbn [shr_m].
  apply Z.leb_le in He. change (1024 - 53) with 971. rewrite He. reflexivity.
Qed.

Lemma b64_mul_one (x : spec_float) :
  B64.valid x -> fmul x fone = x.
Proof.
  intros Hv. change (@fone _ Binary64) with (S754_finite false 4503599627370496 (-52)).
  destruct x as [s|s| |s m e]; simpl; try reflexivity; try (destruct s; reflexivity).
  unfold B64.valid in Hv. simpl in Hv.
  destruct (@bounded_canonical _ _ Hv) as [Hc He].
  unfold B64.prec, B64.emax. unfold binary_round_aux.
  assert (E : shr_fexp 53 1024 (Z.pos (m * 4503599627370496)) (e + -52) loc_Exact
              = (Build_shr_record (Zpos m) false false, e)).
  { unfold shr_fexp. rewrite Pos.mul_comm.
    assert (D : Zdigits2 (Z.pos (4503599627370496 * m)) = Z.pos (digits2_pos m) + 52).
    { cbn [Zdigits2 Pos.mul digits2_pos]. lia. }
    rewrite D.
    replace (Z.pos (digits2_pos m) + 52 + (e + -52)) with (Z.pos (digits2_pos m) + e) by lia.
    rewrite Hc. replace (e - (e + -52)) with 52 by lia.
    cbv [shr]. apply f_equal2; [reflexivity|lia]. }
  rewrite E. cbn [shr_m loc_of_shr_record round_nearest_even].
  rewrite (@shr_fexp_canonical _ _ Hc). cbn [shr_m].
  apply Z.leb_le in He. change (1024 - 53) with 971. rewrite He.
  rewrite xorb_false_r. reflexivity.
Qed.

Lemma div_eucl_exact (q b : Z) : 0 < b -> Z.div_eucl (q * b) b = (q, 0).
Proof.
  intros Hb. pose proof (Z.div_mul q b ltac:(lia)) as Hq.
  pose proof (Z.mod_mul q b ltac:(lia)) as Hr.
  unfold Z.div, Z.modulo in Hq, Hr.
  destruct (Z.div_eucl (q * b) b) as [q' r']. subst. reflexivity.
Qed.

Lemma b64_div_one (x : spec_float) :
  B64.valid x -> fdiv x fone = x.
Proof.
  intros Hv. change (@fone _ Binary64) with (S754_finite false 4503599627370496 (-52)).
  destruct x as [s|s| |s m e]; simpl; try reflexivity; try (destruct s; reflexivity).
  unfold B64.valid in Hv. simpl in Hv.
  destruct (@bounded_canonical _ _ Hv) as [Hc He].
  unfold B64.prec, B64.emax.
  assert (Hcases :
    SFdiv_core_binary 53 1024 (Z.pos m) e 4503599627370496 (-52) = (Z.pos m, e, loc_Exact)
    \/ (SFdiv_core_binary 53 1024 (Z.pos m) e 4503599627370496 (-52) = (Z.pos m~0, e - 1, loc_Exact)
        /\ fexp 53 1024 (Z.pos (digits2_pos m) + 1 + (e - 1)) = e)).
  { unfold SFdiv_core_binary.
    change (Zdigits2 (Z.pos m)) with (Z.pos (digits2_pos m)).
    change (Zdigits2 4503599627370496) with 53.
    assert (Hm : Z.min (fexp 53 1024 (Z.pos (digits2_pos m) + e - (53 + -52))) (e - -52) = e
                 \/ (Z.min (fexp 53 1024 (Z.pos (digits2_pos m) + e - (53 + -52))) (e - -52) = e - 1
                     /\ fexp 53 1024 (Z.pos (digits2_pos m) + 1 + (e - 1)) = e)).
    { unfold fexp, emin in *. lia. }
    destruct Hm as [Hm|[Hm Hf]]; rewrite Hm.
    - left. replace (e - -52 - e) with 52 by lia. cbv iota.
      rewrite Z.shiftl_mul_pow2 by lia.
      change (2 ^ 52) with 4503599627370496.
      rewrite div_eucl_exact by lia. reflexivity.
    - right. split; [|exact Hf].
      replace (e - -52 - (e - 1)) with 53 by lia. cbv iota.
      rewrite Z.shiftl_mul_pow2 by lia.
      replace (Z.pos m * 2 ^ 53) with (Z.pos m~0 * 4503599627370496) by lia.
      rewrite div_eucl_exact by lia. reflexivity. }
  destruct Hcases as [E|[E Hf]]; rewrite E.
  - rewrite round_canonical by exact Hv. rewrite xorb_false_r. reflexivity.
  - unfold binary_round_aux.
    assert (E1 : shr_fexp 53 1024 (Z.pos m~0) (e - 1) loc_Exact
                 = (Build_shr_record (Zpos m) false false, e)).
    { unfold shr_fexp. cbn [Zdigits2 digits2_pos].
      replace (Z.pos (Pos.succ (digits2_pos m))) with (Z.pos (digits2_pos m) + 1) by lia.
      rewrite Hf. replace (e - (e - 1)) with 1 by lia.
      cbv [shr]. apply f_equal2; [reflexivity|lia]. }
    rewrite E1. cbn [shr_m loc_of_shr_record round_nearest_even].
    rewrite (@shr_fexp_canonical _ _ Hc). cbn [shr_m].
    apply Z.leb_le in He. change (1024 - 53) with 971. rewrite He.
    rewrite xorb_false_r. reflexivity.
Qed.

Lemma b64_nan_absorbs (y : spec_float) :
  fadd fnan y = fnan /\ fadd y fnan = fnan /\ fsub fnan y = fnan /\
  fmul fnan y = fnan /\ fdiv fnan y = fnan.
Proof. destruct y as [s|s| |s m e]; repeat split; reflexivity. Qed.

Lemma b64_is_nan_eq (x : spec_float) : B64.is_nan x = true -> x = S754_nan.
Proof. destruct x; simpl; intros H; try discriminate. reflexivity. Qed.

Lemma b64_same_refl (x : spec_float) : B64.same x x = true.
Proof.
  destruct x as [s|s| |s m e]; try reflexivity.
  - destruct s; reflexivity.
  - unfold B64.same, SFeqb, SFcompare. simpl B64.is_nan. simpl orb.
    destruct s; rewrite Z.compare_refl, Pos.compare_cont_refl; reflexivity.
Qed.

Lemma b64_add_zero_same (x : spec_float) : B64.same (fadd fzero x) x = true.
Proof.
  destruct x as [s|s| |s m e]; try reflexivity.
  - destruct s; reflexivity.
  - destruct s; reflexivity.
  - apply (b64_same_refl (S754_finite s m e)).
Qed.

Lemma b64_add_zero_valid (x : spec_float) :
  B64.valid x -> B64.valid (fadd fzero x).
Proof.
  destruct x as [s|s| |s m e]; intros H; try exact H.
  destruct s; reflexivity.
Qed.

End Binary64Facts.

Section SumsBinary64.

(** A NaN among the entries makes every sum of them NaN, whatever the
    order. *)
Lemma sums_to_nan (l : list spec_float) (s : spec_float) :
  sums_to l s -> In S754_nan l -> s = S754_nan.
Proof.
  induction 1 as [|x|l l1 l2 s1 s2 Hp H1 IH1 H2 IH2]; intros Hin.
  - contradiction.
  - destruct Hin as [->|[]]. reflexivity.
  - apply (Permutation_in _ Hp) in Hin. apply in_app_or in Hin.
    destruct Hin as [Hin|Hin].
    + rewrite (IH1 Hin). reflexivity.
    + rewrite (IH2 Hin). destruct s1; reflexivity.
Qed.

(** A sum of +0.0's is +0.0, whatever the order. *)
Lemma sums_to_zeros (l : list spec_float) (s : spec_float) :
  sums_to l s -> Forall (eq (S754_zero false)) l -> s = S754_zero false.
Proof.
  induction 1 as [|x|l l1 l2 s1 s2 Hp H1 IH1 H2 IH2]; intros Hall.
  - reflexivity.
  - inversion Hall; subst. reflexivity.
  - assert (H12 : Forall (eq (S754_zero false)) (l1 ++ l2)).
    { rewrite Forall_forall in *. intros x Hx. apply Hall.
      apply (Permutation_in _ (Permutation_sym Hp)). exact Hx. }
    apply Forall_app in H12. destruct H12 as [Ha Hb].
    rewrite (IH1 Ha), (IH2 Hb). reflexivity.
Qed.

Lemma b64_add_finite (a b : spec_float) :
  B64.is_finite (fadd a b) = true ->
  B64.is_finite a = true /\ B64.is_finite b = true.
Proof.
  destruct a as [sa|sa| |sa ma ea], b as [sb|sb| |sb mb eb]; simpl; intros H;
    try discriminate; try (split; reflexivity);
    destruct sa, sb; discriminate.
Qed.

(** A finite sum has finite entries only, whatever the order. *)
Lemma sums_to_finite (l : list spec_float) (s : spec_float) :
  sums_to l s -> B64.is_finite s = true ->
  Forall (fun x => B64.is_finite x = true) l.
Proof.
  induction 1 as [|x|l l1 l2 s1 s2 Hp H1 IH1 H2 IH2]; intros Hfin.
  - constructor.
  - constructor; [exact Hfin|constructor].
  - apply b64_add_finite in Hfin. destruct Hfin as [Ha Hb].
    specialize (IH1 Ha). specialize (IH2 Hb).
    rewrite Forall_forall in *. intros x Hx.
    apply (Permutation_in _ Hp) in Hx. apply in_app_or in Hx.
    destruct Hx as [Hx|Hx]; [apply IH1|apply IH2]; exact Hx.
Qed.

End SumsBinary64.

(** * The smoother *)

Section Smoother.
Context {F : Type} {A : Arith F} {O : Order F}.

Lemma window_length (X : list F) (i w : nat) :
  i + w <= length X -> length (window X i w) = w.
Proof.
  intros H. unfold window. rewrite length_firstn, length_skipn. lia.
Qed.

Lemma window_nth (X : list F) (i w k : nat) (dflt : F) :
  k < w -> nth k (window X i w) dflt = nth (i + k) X dflt.
Proof.
  intros Hk. unfold window. rewrite nth_firstn.
  apply Nat.ltb_lt in Hk. rewrite Hk. apply nth_skipn.
Qed.

(** Within its contract [1 <= w <= len(X)], [moving_average] returns one
    entry per window position: the dot product of the window with the ones,
    divided by [w]. *)
Lemma moving_average_in_range (X : list F) (w : Z) :
  (1 <= w)%Z -> Z.to_nat w <= length X ->
  moving_average X w
  = Some (map (fun i => fdiv (dot (window X i (Z.to_nat w)) (np_ones (Z.to_nat w)))
                             (fof_nat (Z.to_nat w)))
              (seq 0 (length X - Z.to_nat w + 1))).
Proof.
  intros Hw Hlen. unfold moving_average.
  destruct (Z.ltb_spec w 0) as [Hneg|_]; [lia|].
  assert (Hn : 1 <= Z.to_nat w) by lia.
  unfold convolve_valid, np_ones. rewrite repeat_length.
  destruct (Nat.ltb_spec (length X) (Z.to_nat w)) as [Hlt|_]; [lia|].
  destruct X as [|x X']; [simpl in Hlen; lia|].
  destruct (Z.to_nat w) as [|n] eqn:En; [lia|].
  cbn [repeat]. unfold correlate_valid.
  rewrite length_rev. change (fone :: repeat fone n) with (repeat fone (S n)).
  rewrite rev_repeat, repeat_length, map_map. reflexivity.
Qed.

Lemma moving_average_length (X : list F) (w : Z) (out : list F) :
  (1 <= w)%Z -> Z.to_nat w <= length X ->
  moving_average X w = Some out ->
  length out = length X - Z.to_nat w + 1.
Proof.
  intros Hw Hlen H. rewrite (moving_average_in_range X Hw Hlen) in H.
  injection H as <-. rewrite length_map, length_seq. reflexivity.
Qed.

Lemma moving_average_nth (X : list F) (w : Z) (i : nat) (dflt : F) :
  (1 <= w)%Z -> Z.to_nat w <= length X -> i < length X - Z.to_nat w + 1 ->
  option_map (fun out => nth i out dflt) (moving_average X w)
  = Some (fdiv (dot (window X i (Z.to_nat w)) (np_ones (Z.to_nat w)))
               (fof_nat (Z.to_nat w))).
Proof.
  intros Hw Hlen Hi. rewrite (moving_average_in_range X Hw Hlen).
  cbn [option_map]. rewrite nth_map_seq by exact Hi. reflexivity.
Qed.

Lemma np_ones_all (w : nat) : Forall (eq fone) (np_ones w).
Proof.
  unfold np_ones. apply Forall_forall. intros x Hx.
  apply repeat_spec in Hx. symmetry. exact Hx.
Qed.

(** The dot product of a short kernel is the loop. *)
Lemma dot_short (a v : list F) :
  length v <= 11 ->
  dot a v
  = fold_left (fun acc p => fadd acc (fmul (fst p) (snd p))) (combine a v) fzero.
Proof.
  intros H. unfold dot. apply Nat.leb_le in H. rewrite H. reflexivity.
Qed.

(** X8.  Locality: if two inputs of one length differ only at position
    [p], the outputs of [moving_average] agree at every window that does
    not contain [p], i.e. at every [i] with [p < i] or [i + w <= p]. *)
Theorem moving_average_local (X X' : list F) (w : Z) (p i : nat) :
  (1 <= w)%Z -> Z.to_nat w <= length X -> length X' = length X ->
  (forall q, q <> p -> nth q X fnan = nth q X' fnan) ->
  i < length X - Z.to_nat w + 1 ->
  p < i \/ i + Z.to_nat w <= p ->
  option_map (fun out => nth i out fnan) (moving_average X w)
  = option_map (fun out => nth i out fnan) (moving_average X' w).
Proof.
  intros Hw Hlen Hlen' Hsame Hi Hp.
  rewrite (moving_average_nth X fnan Hw Hlen Hi).
  rewrite (moving_average_nth X' fnan Hw) by (rewrite Hlen'; assumption).
  f_equal. f_equal. f_equal.
  apply (nth_ext _ _ fnan fnan).
  - rewrite !window_length by lia. reflexivity.
  - intros k Hk. rewrite window_length in Hk by lia.
    rewrite !window_nth by exact Hk. apply Hsame. lia.
Qed.

(** X6.  [moving_average] raises whenever the window width is not
    positive or the input is empty: [np.ones] rejects a negative width, and
    [np.convolve] an empty operand. *)
Theorem moving_average_raises (X : list F) (w : Z) :
  (w <= 0)%Z \/ X = [] -> moving_average X w = None.
Proof.
  intros H. unfold moving_average, convolve_valid, np_ones.
  rewrite repeat_length.
  destruct (Z.ltb_spec w 0) as [Hneg|Hnn]; [reflexivity|].
  destruct (Z.to_nat w) as [|n] eqn:En.
  - cbn [repeat]. destruct (Nat.ltb (length X) 0); destruct X; reflexivity.
  - destruct H as [H | ->]; [lia|].
    cbn [length repeat]. reflexivity.
Qed.

End Smoother.

Lemma moving_average_local_witness :
  option_map (fun out => nth 2 out fnan)
             (moving_average (map B64.of_Z [1; 2; 3; 4]%Z) 2)
  = option_map (fun out => nth 2 out fnan)
               (moving_average [S754_nan; B64.of_Z 2; B64.of_Z 3; B64.of_Z 4] 2).
Proof.
  apply (@moving_average_local _ Binary64 Sequential (map B64.of_Z [1; 2; 3; 4]%Z)
           [S754_nan; B64.of_Z 2; B64.of_Z 3; B64.of_Z 4] 2 0 2).
  - lia.
  - simpl. lia.
  - reflexivity.
  - intros q Hq. destruct q as [|q]; [congruence|]. reflexivity.
  - simpl. lia.
  - left. lia.
Defined.

Lemma moving_average_raises_witness :
  moving_average (map B64.of_Z [1; 2; 3]%Z) 0 = None /\
  moving_average (@nil spec_float) 2 = None.
Proof.
  split.
  - apply (@moving_average_raises _ Binary64 Sequential (map B64.of_Z [1; 2; 3]%Z) 0).
    left. lia.
  - apply (@moving_average_raises _ Binary64 Sequential (@nil spec_float) 2).
    right. reflexivity.
Defined.

Section SmootherBinary64.
Context {O : Order spec_float}.

Lemma products_ones (l : list spec_float) :
  Forall B64.valid l -> products l (repeat fone (length l)) = l.
Proof.
  intros Hl. unfold products. induction Hl as [|x l Hx _ IH].
  - reflexivity.
  - cbn [length repeat combine map fst snd].
    rewrite (b64_mul_one Hx). f_equal. exact IH.
Qed.

Lemma window_valid (X : list spec_float) (i w : nat) :
  Forall B64.valid X -> Forall B64.valid (window X i w).
Proof.
  intros H. unfold window.
  rewrite <- (firstn_skipn i X) in H. apply Forall_app in H. destruct H as [_ H].
  rewrite <- (firstn_skipn w (skipn i X)) in H. apply Forall_app in H.
  destruct H as [H _]. exact H.
Qed.

(** The dot product of a window with the ones is a sum of the window's
    entries; for a window of at most eleven entries it is the sum from left
    to right. *)
Lemma dot_ones_sum (l : list spec_float) :
  Forall B64.valid l -> sums_to l (dot l (np_ones (length l))).
Proof.
  intros Hl.
  pose proof (@dot_spec _ _ O l (np_ones (length l)) (or_intror (np_ones_all _))) as H.
  unfold np_ones in H at 1. rewrite (products_ones Hl) in H. exact H.
Qed.

Lemma dot_ones_short (l : list spec_float) :
  Forall B64.valid l -> length l <= 11 ->
  dot l (np_ones (length l)) = fold_left fadd l fzero.
Proof.
  intros Hl Hlen.
  rewrite dot_short by (unfold np_ones; rewrite repeat_length; exact Hlen).
  rewrite fold_products. unfold np_ones.
  change (map (fun p => fmul (fst p) (snd p)) (combine l (repeat fone (length l))))
    with (products l (repeat fone (length l))).
  rewrite (products_ones Hl). reflexivity.
Qed.

(** C2.  For a [float64] array [X] and [1 <= w <= len(X)], [moving_average]
    returns [len(X) - w + 1] entries, and entry [i] is the mean of the
    window [X[i : i+w]]: a sum of the window's entries divided by [w], the
    sum being taken from left to right when [w <= 11].  On [[1,2,3,4,5]]
    with [w = 3] it returns [[2,3,4]]. *)
Theorem moving_average_window_means (X : list spec_float) (w : Z) :
  Forall B64.valid X -> (1 <= w <= Z.of_nat (length X))%Z ->
  (exists out,
      moving_average X w = Some out /\
      length out = length X - Z.to_nat w + 1 /\
      forall i, i < length out ->
        is_mean_of (window X i (Z.to_nat w)) (nth i out fnan) /\
        ((w <= 11)%Z ->
         nth i out fnan = window_mean (window X i (Z.to_nat w)))) /\
  moving_average (map B64.of_Z [1; 2; 3; 4; 5]%Z) 3
  = Some (map B64.of_Z [2; 3; 4]%Z).
Proof.
  intros Hv [Hw1 Hw2].
  assert (Hlen : Z.to_nat w <= length X) by lia.
  split; [|vm_compute; reflexivity].
  rewrite (moving_average_in_range X Hw1 Hlen).
  eexists. split; [reflexivity|].
  rewrite length_map, length_seq. split; [reflexivity|].
  intros i Hi. rewrite nth_map_seq by exact Hi.
  assert (Hwl : length (window X i (Z.to_nat w)) = Z.to_nat w)
    by (apply window_length; lia).
  pose proof (window_valid i (Z.to_nat w) Hv) as Hwv.
  split.
  - exists (dot (window X i (Z.to_nat w)) (np_ones (Z.to_nat w))). split.
    + pose proof (dot_ones_sum Hwv) as Hs. rewrite Hwl in Hs. exact Hs.
    + rewrite Hwl. reflexivity.
  - intros Hw11. unfold window_mean.
    pose proof (dot_ones_short Hwv) as Hs. rewrite Hwl in Hs.
    rewrite Hwl, Hs by lia. reflexivity.
Qed.

Lemma forall_valid_nth (X : list spec_float) (i : nat) :
  Forall B64.valid X -> i < length X -> B64.valid (nth i X fnan).
Proof.
  intros H Hi. rewrite Forall_forall in H. apply H. apply nth_In. exact Hi.
Qed.

Lemma window_one (X : list spec_float) (i : nat) :
  i < length X -> window X i 1 = [nth i X fnan].
Proof.
  intros Hi.
  assert (Hl : length (window X i 1) = 1) by (apply window_length; lia).
  pose proof (@window_nth _ X i 1 0 fnan ltac:(lia)) as Hn.
  rewrite Nat.add_0_r in Hn.
  destruct (window X i 1) as [|y [|z t]]; simpl in Hl; try lia.
  simpl in Hn. rewrite Hn. reflexivity.
Qed.

(** C10.  For a non-empty [float64] array [X], [moving_average X 1] has the
    length of [X] and its entries are numerically those of [X] (NaN where
    [X] is NaN). *)
Theorem moving_average_width_one (X : list spec_float) :
  X <> [] -> Forall B64.valid X ->
  exists out,
    moving_average X 1 = Some out /\ length out = length X /\
    forall i, i < length X ->
              B64.same (nth i out fnan) (nth i X fnan) = true.
Proof.
  intros Hne Hv.
  assert (Hlen : Z.to_nat 1 <= length X).
  { destruct X; [congruence|simpl; lia]. }
  rewrite (@moving_average_in_range _ _ _ X 1 ltac:(lia) Hlen).
  change (Z.to_nat 1) with 1. eexists. split; [reflexivity|].
  rewrite length_map, length_seq. split; [lia|].
  intros i Hi. rewrite nth_map_seq by lia.
  rewrite (window_one X Hi).
  pose proof (forall_valid_nth Hv Hi) as Hx.
  change (dot [nth i X fnan] (np_ones 1))
    with (fadd fzero (fmul (nth i X fnan) fone)).
  change (@fof_nat _ Binary64 1) with (@fone _ Binary64).
  rewrite (b64_mul_one Hx), (b64_div_one (b64_add_zero_valid Hx)).
  apply b64_add_zero_same.
Qed.

Lemma products_nan (a v : list spec_float) (k : nat) :
  k < length a -> k < length v -> nth k a fnan = S754_nan ->
  In S754_nan (products a v).
Proof.
  unfold products. revert v k. induction a as [|x a IH]; intros v k Ha Hv Hk.
  - simpl in Ha. lia.
  - destruct v as [|y v]; [simpl in Hv; lia|].
    cbn [combine map fst snd]. destruct k as [|k].
    + simpl in Hk. subst x. left. reflexivity.
    + right. apply (IH v k); simpl in *; try lia. exact Hk.
Qed.

(** C6.  For [1 <= w <= len(X)], a NaN anywhere in the window
    [X[i : i+w]] makes entry [i] of [moving_average X w] NaN. *)
Theorem moving_average_nan_poisons (X : list spec_float) (w : Z) (i k : nat) :
  (1 <= w <= Z.of_nat (length X))%Z ->
  i + Z.to_nat w <= length X -> k < Z.to_nat w ->
  B64.is_nan (nth (i + k) X fnan) = true ->
  exists out,
    moving_average X w = Some out /\ i < length out /\
    B64.is_nan (nth i out fnan) = true.
Proof.
  intros [Hw1 Hw2] Hi Hk Hnan.
  assert (Hlen : Z.to_nat w <= length X) by lia.
  rewrite (moving_average_in_range X Hw1 Hlen).
  eexists. split; [reflexivity|].
  rewrite length_map, length_seq. split; [lia|].
  rewrite nth_map_seq by lia.
  assert (Hd : dot (window X i (Z.to_nat w)) (np_ones (Z.to_nat w)) = S754_nan).
  { apply (@sums_to_nan (products (window X i (Z.to_nat w)) (np_ones (Z.to_nat w)))).
    - apply dot_spec. right. apply np_ones_all.
    - apply (@products_nan _ _ k).
      + rewrite window_length by lia. exact Hk.
      + unfold np_ones. rewrite repeat_length. exact Hk.
      + rewrite window_nth by exact Hk. apply b64_is_nan_eq. exact Hnan. }
  rewrite Hd. reflexivity.
Qed.

End SmootherBinary64.

Lemma moving_average_window_means_witness :
  (exists out,
      moving_average (map B64.of_Z [1; 2; 3; 4; 5]%Z) 3 = Some out /\
      length out = 3 /\
      forall i, i < length out ->
        is_mean_of (window (map B64.of_Z [1; 2; 3; 4; 5]%Z) i 3) (nth i out fnan) /\
        ((3 <= 11)%Z ->
         nth i out fnan = window_mean (window (map B64.of_Z [1; 2; 3; 4; 5]%Z) i 3))) /\
  moving_average (map B64.of_Z [1; 2; 3; 4; 5]%Z) 3
  = Some (map B64.of_Z [2; 3; 4]%Z).
Proof.
  apply (@moving_average_window_means Sequential (map B64.of_Z [1; 2; 3; 4; 5]%Z) 3).
  - repeat constructor.
  - simpl. lia.
Defined.

Lemma moving_average_width_one_witness :
  exists out,
    moving_average [B64.of_Z 7; S754_nan; B64.lit 1 10] 1 = Some out /\
    length out = 3 /\
    forall i, i < 3 ->
              B64.same (nth i out fnan)
                       (nth i [B64.of_Z 7; S754_nan; B64.lit 1 10] fnan) = true.
Proof.
  apply (@moving_average_width_one Sequential [B64.of_Z 7; S754_nan; B64.lit 1 10]).
  - discriminate.
  - repeat constructor.
Defined.

Lemma moving_average_nan_poisons_witness :
  exists out,
    moving_average [B64.of_Z 1; B64.of_Z 2; S754_nan; B64.of_Z 4] 2 = Some out /\
    1 < length out /\ B64.is_nan (nth 1 out fnan) = true.
Proof.
  apply (@moving_average_nan_poisons Sequential
           [B64.of_Z 1; B64.of_Z 2; S754_nan; B64.of_Z 4] 2 1 1).
  - simpl. lia.
  - simpl. lia.
  - simpl. lia.
  - reflexivity.
Defined.

(** * Magnitudes

    How large the result of a rounding can be.  A positive mantissa [m] of
    [d] binary digits at exponent [e] stands for a number in
    [[2^(d+e-1), 2^(d+e))]; rounding moves [d + e] by at most one, and the
    result is finite exactly when it stays below [2^1024]. *)

Section Magnitude.
Local Open Scope Z_scope.

Lemma iter_pos_invariant {T : Type} (P : T -> Prop) (f : T -> T) :
  (forall x, P x -> P (f x)) -> forall p x, P x -> P (iter_pos f p x).
Proof.
  intros Hf. induction p as [p IH|p IH|]; intros x Hx; simpl.
  - apply IH, IH, Hf, Hx.
  - apply IH, IH, Hx.
  - apply Hf, Hx.
Qed.

Lemma shr_1_nonneg (r : shr_record) : 0 <= shr_m r -> 0 <= shr_m (shr_1 r).
Proof.
  destruct r as [m r s]. simpl. intros H.
  destruct m as [|p|p]; [simpl; lia| |lia].
  destruct p; simpl; lia.
Qed.

Lemma shr_fexp_nonneg (m e : Z) (l : location) :
  0 <= m -> 0 <= shr_m (fst (shr_fexp 53 1024 m e l)).
Proof.
  intros Hm. unfold shr_fexp, shr.
  assert (H0 : 0 <= shr_m (shr_record_of_loc m l)).
  { destruct l as [|c]; [exact Hm|]. destruct c; exact Hm. }
  destruct (fexp 53 1024 (Zdigits2 m + e) - e) as [|p|p]; simpl; try exact H0.
  apply iter_pos_invariant; [apply shr_1_nonneg|exact H0].
Qed.

Lemma digits2_pos_bounds (p : positive) :
  2 ^ (Zpos (digits2_pos p) - 1) <= Zpos p < 2 ^ Zpos (digits2_pos p).
Proof.
  induction p as [p IH|p IH|]; cbn [digits2_pos].
  - rewrite Pos2Z.inj_succ.
    replace (Z.succ (Zpos (digits2_pos p)) - 1) with (Z.succ (Zpos (digits2_pos p) - 1)) by lia.
    rewrite !Z.pow_succ_r by lia. lia.
  - rewrite Pos2Z.inj_succ.
    replace (Z.succ (Zpos (digits2_pos p)) - 1) with (Z.succ (Zpos (digits2_pos p) - 1)) by lia.
    rewrite !Z.pow_succ_r by lia. lia.
  - simpl. lia.
Qed.

Lemma Zdigits2_nonneg (m : Z) : 0 <= Zdigits2 m.
Proof. destruct m; simpl; lia. Qed.

Lemma Zdigits2_pos (m : Z) : 0 < m -> 0 < Zdigits2 m.
Proof. destruct m; simpl; lia. Qed.

(** [m < 2^k] bounds the number of digits from above. *)
Lemma Zdigits2_le (m k : Z) : 0 <= m -> 0 <= k -> m < 2 ^ k -> Zdigits2 m <= k.
Proof.
  intros Hm Hk Hlt. destruct m as [|p|p]; [simpl; lia| |lia].
  cbn [Zdigits2]. destruct (Z.le_gt_cases (Zpos (digits2_pos p)) k) as [H|H]; [exact H|].
  exfalso. pose proof (digits2_pos_bounds p) as [Hb _].
  assert (2 ^ k <= 2 ^ (Zpos (digits2_pos p) - 1)) by (apply Z.pow_le_mono_r; lia).
  lia.
Qed.

(** [2^(k-1) <= m] bounds the number of digits from below. *)
Lemma Zdigits2_ge (m k : Z) : 0 < m -> 2 ^ (k - 1) <= m -> k <= Zdigits2 m.
Proof.
  intros Hm Hle. destruct m as [|p|p]; [lia| |lia].
  cbn [Zdigits2]. destruct (Z.le_gt_cases k (Zpos (digits2_pos p))) as [H|H]; [exact H|].
  exfalso. pose proof (digits2_pos_bounds p) as [_ Hb].
  assert (2 ^ Zpos (digits2_pos p) <= 2 ^ (k - 1)) by (apply Z.pow_le_mono_r; lia).
  lia.
Qed.

Lemma Zdigits2_lower (m : Z) : 0 < m -> 2 ^ (Zdigits2 m - 1) <= m.
Proof.
  destruct m as [|p|p]; try lia. intros _. apply digits2_pos_bounds.
Qed.

Lemma Zdigits2_upper (m : Z) : 0 <= m -> m < 2 ^ Zdigits2 m.
Proof.
  destruct m as [|p|p]; try lia; intros _.
  - simpl. lia.
  - apply digits2_pos_bounds.
Qed.

Lemma Zdigits2_mono (a b : Z) : 0 < a -> a <= b -> Zdigits2 a <= Zdigits2 b.
Proof.
  intros Ha Hab. apply Zdigits2_ge; [lia|].
  pose proof (Zdigits2_lower Ha). lia.
Qed.

Lemma div_pow2_lower (m a n : Z) :
  0 <= n <= a -> 2 ^ a <= m -> 2 ^ (a - n) <= m / 2 ^ n.
Proof.
  intros Hn Hm. apply Z.div_le_lower_bound; [apply Z.pow_pos_nonneg; lia|].
  rewrite <- Z.pow_add_r by lia. replace (n + (a - n)) with a by lia. exact Hm.
Qed.

Lemma div_pow2_upper (m a n : Z) :
  0 <= n <= a -> 0 <= m < 2 ^ a -> m / 2 ^ n < 2 ^ (a - n).
Proof.
  intros Hn Hm. apply Z.div_lt_upper_bound; [apply Z.pow_pos_nonneg; lia|].
  rewrite <- Z.pow_add_r by lia. replace (n + (a - n)) with a by lia. lia.
Qed.

(** One step of the right shift halves the mantissa. *)
Lemma shr_1_half (r : shr_record) : 0 <= shr_m r -> shr_m (shr_1 r) = shr_m r / 2.
Proof.
  destruct r as [m r s]. cbn [shr_m shr_1]. intros H.
  destruct m as [|p|p]; [reflexivity| |lia].
  destruct p as [p|p|]; cbn [shr_m].
  - apply (Z.div_unique _ 2 _ 1); lia.
  - apply (Z.div_unique _ 2 _ 0); lia.
  - reflexivity.
Qed.

Lemma shr_iter_div (n : positive) (r : shr_record) :
  0 <= shr_m r ->
  shr_m (iter_pos shr_1 n r) = shr_m r / 2 ^ Zpos n /\
  0 <= shr_m (iter_pos shr_1 n r).
Proof.
  revert r. induction n as [n IH|n IH|]; intros r Hr; cbn [iter_pos].
  - pose proof (shr_1_nonneg _ Hr) as H1.
    destruct (IH _ H1) as [E2 H2]. destruct (IH _ H2) as [E3 H3].
    split; [|exact H3].
    rewrite E3, E2, shr_1_half by exact Hr.
    rewrite !Z.div_div by (try apply Z.pow_pos_nonneg; lia).
    f_equal.
    replace (Zpos n~1) with (1 + Zpos n + Zpos n) by lia.
    rewrite 2!Z.pow_add_r by lia. change (2 ^ 1) with 2. lia.
  - destruct (IH _ Hr) as [E2 H2]. destruct (IH _ H2) as [E3 H3].
    split; [|exact H3].
    rewrite E3, E2.
    rewrite !Z.div_div by (try apply Z.pow_pos_nonneg; lia).
    f_equal.
    replace (Zpos n~0) with (Zpos n + Zpos n) by lia.
    rewrite Z.pow_add_r by lia. reflexivity.
  - split; [|apply shr_1_nonneg; exact Hr].
    rewrite shr_1_half by exact Hr. reflexivity.
Qed.

Lemma shr_record_of_loc_m (m : Z) (l : location) : shr_m (shr_record_of_loc m l) = m.
Proof. destruct l as [|c]; [reflexivity|]. destruct c; reflexivity. Qed.

(** What [shr_fexp] returns: the mantissa as it is when the exponent is
    already the canonical one or above it, and shifted to the canonical
    exponent otherwise. *)
Lemma shr_fexp_spec (m e : Z) (l : location) :
  0 <= m ->
  let n := fexp 53 1024 (Zdigits2 m + e) - e in
  (n <= 0 /\ shr_m (fst (shr_fexp 53 1024 m e l)) = m /\
   snd (shr_fexp 53 1024 m e l) = e) \/
  (0 < n /\ shr_m (fst (shr_fexp 53 1024 m e l)) = m / 2 ^ n /\
   snd (shr_fexp 53 1024 m e l) = e + n).
Proof.
  intros Hm n. unfold shr_fexp. fold n. unfold shr.
  destruct n as [|p|p] eqn:En.
  - left. cbn [fst snd]. rewrite shr_record_of_loc_m. repeat split; lia.
  - right. cbn [fst snd].
    destruct (@shr_iter_div p (shr_record_of_loc m l)) as [E _].
    { rewrite shr_record_of_loc_m. exact Hm. }
    rewrite E, shr_record_of_loc_m. repeat split; lia.
  - left. cbn [fst snd]. rewrite shr_record_of_loc_m. repeat split; lia.
Qed.

Lemma round_nearest_even_bounds (m : Z) (l : location) :
  m <= round_nearest_even m l <= m + 1.
Proof.
  destruct l as [|c]; simpl; [lia|].
  destruct c; [destruct (Z.even m)| |]; lia.
Qed.

(** The shift keeps a positive mantissa positive and does not lower the
    magnitude, above the smallest subnormal number. *)
Lemma shr_fexp_magnitude (m e : Z) (l : location) :
  0 < m -> -1073 <= Zdigits2 m + e ->
  0 < shr_m (fst (shr_fexp 53 1024 m e l)) /\
  Zdigits2 m + e
  <= Zdigits2 (shr_m (fst (shr_fexp 53 1024 m e l))) + snd (shr_fexp 53 1024 m e l) /\
  fexp 53 1024 (Zdigits2 m + e) <= snd (shr_fexp 53 1024 m e l).
Proof.
  intros Hm Hmag.
  destruct (@shr_fexp_spec m e l ltac:(lia)) as [[Hn [E1 E2]]|[Hn [E1 E2]]];
    rewrite E1, E2.
  - repeat split; lia.
  - set (n := fexp 53 1024 (Zdigits2 m + e) - e) in *.
    pose proof (Zdigits2_lower Hm) as Hlow.
    assert (Hnd : n <= Zdigits2 m - 1).
    { unfold n, fexp, emin. lia. }
    pose proof (@div_pow2_lower m (Zdigits2 m - 1) n ltac:(lia) Hlow) as Hq.
    assert (Hpos : 0 < 2 ^ (Zdigits2 m - 1 - n)) by (apply Z.pow_pos_nonneg; lia).
    split; [lia|]. split; [|lia].
    assert (Zdigits2 m - n <= Zdigits2 (m / 2 ^ n)).
    { apply Zdigits2_ge; [lia|].
      replace (Zdigits2 m - n - 1) with (Zdigits2 m - 1 - n) by lia. exact Hq. }
    lia.
Qed.

(** The shift keeps a mantissa below [2^(a - e)], for the new exponent. *)
Lemma shr_fexp_below (m e a : Z) (l : location) :
  0 <= m -> m < 2 ^ (a - e) -> snd (shr_fexp 53 1024 m e l) <= a ->
  0 <= shr_m (fst (shr_fexp 53 1024 m e l)) < 2 ^ (a - snd (shr_fexp 53 1024 m e l)).
Proof.
  intros Hm Hlt Ha.
  destruct (@shr_fexp_spec m e l Hm) as [[Hn [E1 E2]]|[Hn [E1 E2]]];
    rewrite E1, E2 in *.
  - lia.
  - set (n := fexp 53 1024 (Zdigits2 m + e) - e) in *.
    split; [apply Z.div_pos; [lia|apply Z.pow_pos_nonneg; lia]|].
    replace (a - (e + n)) with (a - e - n) by lia.
    apply div_pow2_upper; lia.
Qed.

Lemma shr_fexp_exponent (m e : Z) (l : location) :
  0 <= m ->
  snd (shr_fexp 53 1024 m e l) = Z.max e (fexp 53 1024 (Zdigits2 m + e)).
Proof.
  intros Hm.
  destruct (@shr_fexp_spec m e l Hm) as [[Hn [E1 E2]]|[Hn [E1 E2]]];
    rewrite E2; lia.
Qed.

(** Rounding a mantissa below [2^1023] at an exponent within range gives a
    finite number. *)
Lemma round_finite (s : bool) (m e : Z) (l : location) :
  0 <= m -> e <= 971 -> m < 2 ^ (1023 - e) ->
  B64.is_finite (binary_round_aux 53 1024 s m e l) = true.
Proof.
  intros Hm He Hlt. unfold binary_round_aux.
  assert (Hd : Zdigits2 m + e <= 1023).
  { pose proof (@Zdigits2_le m (1023 - e) Hm ltac:(lia) Hlt). lia. }
  pose proof (@shr_fexp_exponent m e l Hm) as Ee1.
  assert (He1 : snd (shr_fexp 53 1024 m e l) <= 971).
  { rewrite Ee1. unfold fexp, emin. lia. }
  pose proof (@shr_fexp_below m e 1023 l Hm Hlt ltac:(lia)) as Hb1.
  destruct (shr_fexp 53 1024 m e l) as [r1 e1]. cbn [fst snd] in *.
  set (m2 := round_nearest_even (shr_m r1) (loc_of_shr_record r1)).
  pose proof (round_nearest_even_bounds (shr_m r1) (loc_of_shr_record r1)) as Hr.
  fold m2 in Hr.
  assert (Hm2 : 0 <= m2) by lia.
  assert (Hlt2 : m2 < 2 ^ (1024 - e1)).
  { replace (1024 - e1) with (Z.succ (1023 - e1)) by lia.
    rewrite Z.pow_succ_r by lia. lia. }
  pose proof (@shr_fexp_exponent m2 e1 loc_Exact Hm2) as Ee2.
  assert (He2 : snd (shr_fexp 53 1024 m2 e1 loc_Exact) <= 971).
  { rewrite Ee2.
    pose proof (@Zdigits2_le m2 (1024 - e1) Hm2 ltac:(lia) Hlt2).
    unfold fexp, emin. lia. }
  pose proof (@shr_fexp_nonneg m2 e1 loc_Exact Hm2) as H3.
  destruct (shr_fexp 53 1024 m2 e1 loc_Exact) as [r2 e2]. cbn [fst snd] in *.
  destruct (shr_m r2) as [|p|p]; [reflexivity| |lia].
  change (1024 - 53) with 971. apply Z.leb_le in He2. rewrite He2. reflexivity.
Qed.

(** Rounding a mantissa of magnitude [2^1024] or more overflows. *)
Lemma round_overflow (s : bool) (m e : Z) (l : location) :
  0 < m -> 1025 <= Zdigits2 m + e ->
  binary_round_aux 53 1024 s m e l = S754_infinity s.
Proof.
  intros Hm Hmag. unfold binary_round_aux.
  destruct (@shr_fexp_magnitude m e l Hm ltac:(lia)) as [Hp1 [Hg1 _]].
  destruct (shr_fexp 53 1024 m e l) as [r1 e1]. cbn [fst snd] in *.
  set (m2 := round_nearest_even (shr_m r1) (loc_of_shr_record r1)).
  pose proof (round_nearest_even_bounds (shr_m r1) (loc_of_shr_record r1)) as Hr.
  fold m2 in Hr.
  assert (Hm2 : 0 < m2) by lia.
  pose proof (@Zdigits2_mono (shr_m r1) m2 Hp1 ltac:(lia)) as Hmono.
  destruct (@shr_fexp_magnitude m2 e1 loc_Exact Hm2 ltac:(lia)) as [Hp2 [Hg2 Hf2]].
  destruct (shr_fexp 53 1024 m2 e1 loc_Exact) as [r2 e2]. cbn [fst snd] in *.
  assert (He2 : 971 < e2).
  { unfold fexp, emin in Hf2. lia. }
  destruct (shr_m r2) as [|p|p]; try lia.
  change (1024 - 53) with 971.
  destruct (Z.leb_spec e2 971); [lia|reflexivity].
Qed.

(** Rounding does not lower the magnitude: the result is an infinity or a
    finite number at least as large as [2^(K-1)]. *)
Lemma round_magnitude (s : bool) (m e K : Z) (l : location) :
  0 < m -> -1073 <= K -> K <= Zdigits2 m + e ->
  match binary_round_aux 53 1024 s m e l with
  | S754_infinity _ => True
  | S754_finite _ m' e' => K <= Zpos (digits2_pos m') + e'
  | _ => False
  end.
Proof.
  intros Hm HK Hmag. unfold binary_round_aux.
  destruct (@shr_fexp_magnitude m e l Hm ltac:(lia)) as [Hp1 [Hg1 _]].
  destruct (shr_fexp 53 1024 m e l) as [r1 e1]. cbn [fst snd] in *.
  set (m2 := round_nearest_even (shr_m r1) (loc_of_shr_record r1)).
  pose proof (round_nearest_even_bounds (shr_m r1) (loc_of_shr_record r1)) as Hr.
  fold m2 in Hr.
  assert (Hm2 : 0 < m2) by lia.
  pose proof (@Zdigits2_mono (shr_m r1) m2 Hp1 ltac:(lia)) as Hmono.
  destruct (@shr_fexp_magnitude m2 e1 loc_Exact Hm2 ltac:(lia)) as [Hp2 [Hg2 _]].
  destruct (shr_fexp 53 1024 m2 e1 loc_Exact) as [r2 e2]. cbn [fst snd] in *.
  destruct (shr_m r2) as [|p|p] eqn:Er; try lia.
  destruct (e2 <=? 1024 - 53); [|exact I].
  cbn [Zdigits2] in Hg2. lia.
Qed.

(** The sign of a rounded number is the sign that was asked for. *)
Lemma round_sign (s : bool) (m e : Z) (l : location) :
  match binary_round_aux 53 1024 s m e l with
  | S754_zero s' | S754_infinity s' | S754_finite s' _ _ => s' = s
  | S754_nan => True
  end.
Proof.
  unfold binary_round_aux.
  destruct (shr_fexp 53 1024 m e l) as [r1 e1].
  destruct (shr_fexp 53 1024 _ e1 loc_Exact) as [r2 e2].
  destruct (shr_m r2); [reflexivity| |exact I].
  destruct (e2 <=? 1024 - 53); reflexivity.
Qed.

End Magnitude.

(** * Finite results of the four operations *)

Section FiniteResults.
Local Open Scope Z_scope.

Lemma digits2_pos_iter_xO (m d : positive) :
  Zpos (digits2_pos (Pos.iter xO m d)) = Zpos (digits2_pos m) + Zpos d.
Proof.
  induction d as [|d IH] using Pos.peano_ind.
  - cbn [Pos.iter digits2_pos]. lia.
  - rewrite Pos.iter_succ. cbn [digits2_pos]. lia.
Qed.

(** Aligning a mantissa to a lower exponent keeps its magnitude. *)
Lemma shl_align_digits (m : positive) (e e' : Z) :
  Zpos (digits2_pos (fst (shl_align m e e'))) + snd (shl_align m e e')
  = Zpos (digits2_pos m) + e.
Proof.
  unfold shl_align. destruct (e' - e) as [|d|d] eqn:E; cbn [fst snd]; try reflexivity.
  rewrite digits2_pos_iter_xO. lia.
Qed.

Lemma shl_align_snd (m : positive) (e e' : Z) :
  e' <= e -> snd (shl_align m e e') = e'.
Proof.
  intros H. unfold shl_align. destruct (e' - e) as [|d|d] eqn:E; cbn [snd]; lia.
Qed.

(** [sigma + 1e-7] is at least [2^-24] when [sigma] is a zero or a positive
    number. *)
Lemma b64_add_eps_magnitude (sigma : spec_float) :
  B64.is_zero sigma = true \/ (exists m e, sigma = S754_finite false m e) ->
  B64.magnitude_ge (-23) (fadd sigma feps).
Proof.
  intros [Hz|[m [e ->]]].
  - destruct sigma as [s|s| |s m e]; try discriminate Hz.
    cbn [fadd Binary64 SFadd feps B64.eps B64.magnitude_ge]. simpl. lia.
  - change (fadd (S754_finite false m e) feps)
      with (binary_normalize 53 1024
              (Zpos (fst (shl_align m e (Z.min e (-76)))
                     + fst (shl_align 7555786372591432 (-76) (Z.min e (-76)))))
              (Z.min e (-76)) false).
    set (ez := Z.min e (-76)).
    set (a := fst (shl_align m e ez)).
    set (b := fst (shl_align 7555786372591432 (-76) ez)).
    cbn [binary_normalize]. unfold binary_round.
    pose proof (shl_align_digits (a + b) ez
                  (fexp 53 1024 (Zpos (digits2_pos (a + b)) + ez))) as Hd.
    destruct (shl_align (a + b) ez (fexp 53 1024 (Zpos (digits2_pos (a + b)) + ez)))
      as [mz ez'].
    cbn [fst snd] in Hd.
    pose proof (shl_align_digits 7555786372591432 (-76) ez) as Hb.
    rewrite (@shl_align_snd 7555786372591432 (-76) ez ltac:(unfold ez; lia)) in Hb.
    fold b in Hb. change (Zpos (digits2_pos 7555786372591432)) with 53 in Hb.
    pose proof (@Zdigits2_mono (Zpos b) (Zpos (a + b)) ltac:(lia) ltac:(lia)) as Hmono.
    cbn [Zdigits2] in Hmono.
    pose proof (@round_magnitude false (Zpos mz) ez' (-23) loc_Exact
                  ltac:(lia) ltac:(lia)) as Hr.
    cbn [Zdigits2] in Hr. specialize (Hr ltac:(lia)).
    unfold B64.magnitude_ge.
    destruct (binary_round_aux 53 1024 false (Zpos mz) ez' loc_Exact);
      try contradiction; exact Hr.
Qed.

(** A number below [2^512] divided by a number of at least [2^-24] is
    finite. *)
Lemma b64_div_finite (x c : spec_float) :
  B64.magnitude_le 512 x -> B64.magnitude_ge (-23) c ->
  B64.is_finite (fdiv x c) = true.
Proof.
  intros Hx Hc.
  destruct x as [sx|sx| |sx m1 e1]; try contradiction;
    destruct c as [sc|sc| |sc m2 e2]; try contradiction; try reflexivity.
  cbn [B64.magnitude_le B64.magnitude_ge] in Hx, Hc.
  change (fdiv (S754_finite sx m1 e1) (S754_finite sc m2 e2))
    with (let '(mz, ez, lz) := SFdiv_core_binary 53 1024 (Zpos m1) e1 (Zpos m2) e2 in
          binary_round_aux 53 1024 (xorb sx sc) mz ez lz).
  unfold SFdiv_core_binary. cbn [Zdigits2].
  set (d1 := Zpos (digits2_pos m1)) in *. set (d2 := Zpos (digits2_pos m2)) in *.
  set (e' := Z.min (fexp 53 1024 (d1 + e1 - (d2 + e2))) (e1 - e2)).
  set (s := e1 - e2 - e').
  set (m' := match s with Z0 => Zpos m1 | Zpos _ => Z.shiftl (Zpos m1) s | Zneg _ => 0 end).
  assert (Hs : 0 <= s) by (unfold s, e'; lia).
  assert (Hm' : m' = Zpos m1 * 2 ^ s).
  { unfold m'. destruct s as [|p|p] eqn:Es; [simpl; lia| |lia].
    rewrite Z.shiftl_mul_pow2 by lia. reflexivity. }
  assert (Hpow : 0 < 2 ^ s) by (apply Z.pow_pos_nonneg; lia).
  assert (Hm'0 : 0 <= m') by (rewrite Hm'; lia).
  pose proof (digits2_pos_bounds m1) as [_ Hu1]. fold d1 in Hu1.
  pose proof (digits2_pos_bounds m2) as [Hl2 _]. fold d2 in Hl2.
  assert (Hm'u : m' < 2 ^ (d1 + s)).
  { rewrite Hm', Z.pow_add_r by (unfold d1; lia).
    apply Z.mul_lt_mono_pos_r; assumption. }
  pose proof (Z.div_pos m' (Zpos m2) Hm'0 ltac:(lia)) as Hq0.
  pose proof (Z.mul_div_le m' (Zpos m2) ltac:(lia)) as Hqm.
  unfold Z.div in Hq0, Hqm.
  destruct (Z.div_eucl m' (Zpos m2)) as [q r].
  assert (He' : e' <= 971) by (unfold e', fexp, emin; lia).
  apply round_finite; try assumption.
  destruct (Z.lt_ge_cases q (2 ^ (1023 - e'))) as [Hlt|Hge]; [exact Hlt|].
  exfalso.
  assert (H1 : 2 ^ (1023 - e') * 2 ^ (d2 - 1) <= q * Zpos m2).
  { apply Z.mul_le_mono_nonneg; try assumption;
      apply Z.pow_nonneg; lia. }
  rewrite <- Z.pow_add_r in H1 by (unfold d2; lia).
  assert (H2 : 2 ^ (d1 + s) <= 2 ^ (1023 - e' + (d2 - 1))).
  { apply Z.pow_le_mono_r; [lia|]. unfold s. lia. }
  lia.
Qed.

(** If [d * d] is finite then [d] is below [2^512]. *)
Lemma b64_mul_self_finite (d : spec_float) :
  B64.is_finite (fmul d d) = true -> B64.magnitude_le 512 d.
Proof.
  destruct d as [s|s| |s m e]; intros H; try discriminate H; [exact I|].
  cbn [B64.magnitude_le].
  destruct (Z.le_gt_cases (Zpos (digits2_pos m) + e) 512) as [Hle|Hgt]; [exact Hle|].
  exfalso.
  change (fmul (S754_finite s m e) (S754_finite s m e))
    with (binary_round_aux 53 1024 (xorb s s) (Zpos (m * m)) (e + e) loc_Exact) in H.
  rewrite round_overflow in H; [discriminate H|lia|].
  pose proof (digits2_pos_bounds m) as [Hl _].
  set (dg := Zpos (digits2_pos m)) in *.
  assert (Hsq : 2 ^ (2 * dg - 1 - 1) <= Zpos (m * m)).
  { replace (2 * dg - 1 - 1) with ((dg - 1) + (dg - 1)) by lia.
    rewrite Z.pow_add_r by (unfold dg; lia). rewrite Pos2Z.inj_mul.
    apply Z.mul_le_mono_nonneg; try assumption; apply Z.pow_nonneg; lia. }
  pose proof (@Zdigits2_ge (Zpos (m * m)) (2 * dg - 1) ltac:(lia) Hsq). lia.
Qed.

(** A finite square root is a zero or a positive number, and so is its
    argument. *)
Lemma b64_sqrt_finite (v : spec_float) :
  B64.is_finite (fsqrt v) = true ->
  B64.is_finite v = true /\
  (B64.is_zero (fsqrt v) = true \/ exists m e, fsqrt v = S754_finite false m e).
Proof.
  destruct v as [s|s| |s m e]; intros H; try discriminate H.
  - split; [reflexivity|]. left. reflexivity.
  - destruct s; discriminate H.
  - split; [reflexivity|]. destruct s; [discriminate H|].
    change (fsqrt (S754_finite false m e))
      with (let '(mz, ez, lz) := SFsqrt_core_binary 53 1024 (Zpos m) e in
            binary_round_aux 53 1024 false mz ez lz) in *.
    destruct (SFsqrt_core_binary 53 1024 (Zpos m) e) as [[mz ez] lz].
    pose proof (round_sign false mz ez lz) as Hs.
    destruct (binary_round_aux 53 1024 false mz ez lz) as [s'|s'| |s' m' e'];
      try discriminate H.
    + left. reflexivity.
    + right. subst s'. exists m', e'. reflexivity.
Qed.

(** A finite quotient has a finite numerator. *)
Lemma b64_div_finite_num (a b : spec_float) :
  B64.is_finite (fdiv a b) = true -> B64.is_finite a = true.
Proof.
  destruct a as [sa|sa| |sa ma ea]; intros H; try reflexivity;
    destruct b as [sb|sb| |sb mb eb]; discriminate H.
Qed.

End FiniteResults.

(** * Missing values *)

Section Deviations.
Context {F : Type} {A : Arith F} {O : Order F}.

(** The deviations that [nanvar] squares: 0 at a missing entry, [x - avg]
    elsewhere. *)
Lemma deviations_eq (l : list F) (avg : F) :
  copyto_zero (map (fun x => fsub x avg)
                   (map (fun x => if fisnan x then fzero else x) l))
              (map fisnan l)
  = map (fun x => if fisnan x then fzero else fsub x avg) l.
Proof.
  induction l as [|x l IH]; cbn [map copyto_zero]; [reflexivity|].
  rewrite IH. destruct (fisnan x); reflexivity.
Qed.

Lemma nanstd_unfold (l : list F) :
  nanstd l
  = fsqrt (if Nat.leb (count_valid (map fisnan l)) 0 then fnan
           else fdiv (np_sum (map (fun x => let v := if fisnan x then fzero
                                                     else fsub x (nanmean l) in
                                            fmul v v) l))
                     (fof_nat (count_valid (map fisnan l)))).
Proof.
  unfold nanstd, nanvar, nanmean, replace_nan. cbv zeta.
  rewrite deviations_eq, map_map. reflexivity.
Qed.

End Deviations.

Section MissingValues.
Context {O : Order spec_float}.

Lemma znorm_nan (mu sigma : spec_float) : znorm mu sigma fnan = fnan.
Proof.
  unfold znorm.
  destruct (b64_nan_absorbs mu) as [_ [_ [Hs _]]]. rewrite Hs.
  destruct (b64_nan_absorbs (fadd sigma feps)) as [_ [_ [_ [_ Hd]]]].
  exact Hd.
Qed.

(** In a lane whose standard deviation is finite, every entry that is not
    missing is normalized to a finite number: the deviations are below
    [2^512], because their squares are finite, and the divisor is at least
    [2^-24]. *)
Lemma lane_entry_finite (l : list spec_float) (k : nat) :
  (k < length l)%nat -> B64.is_nan (nth k l fnan) = false ->
  B64.is_finite (nanstd l) = true ->
  B64.is_finite (znorm (nanmean l) (nanstd l) (nth k l fnan)) = true.
Proof.
  intros Hk Hx Hfin. unfold znorm.
  apply b64_div_finite.
  - rewrite nanstd_unfold in Hfin.
    destruct (Nat.leb (count_valid (map fisnan l)) 0); [discriminate Hfin|].
    apply b64_sqrt_finite in Hfin. destruct Hfin as [Hvar _].
    apply b64_div_finite_num in Hvar.
    pose proof (sums_to_finite (np_sum_spec _) Hvar) as Hall.
    rewrite Forall_forall in Hall.
    set (g := fun x : spec_float =>
                let v := if fisnan x then fzero else fsub x (nanmean l) in
                fmul v v) in Hall.
    specialize (Hall _ (in_map g _ _ (nth_In l fnan Hk))).
    unfold g in Hall. cbv beta zeta in Hall.
    change (fisnan (nth k l fnan)) with (B64.is_nan (nth k l fnan)) in Hall.
    rewrite Hx in Hall.
    apply b64_mul_self_finite. exact Hall.
  - apply b64_add_eps_magnitude.
    unfold nanstd in Hfin |- *. apply b64_sqrt_finite in Hfin.
    destruct Hfin as [_ Hshape]. exact Hshape.
Qed.

(** C3, amended.  For every array and in-range axis, the output of
    [zScore] is missing at every position where the input is missing.  At
    a position where the input is not missing, the output is a finite
    number provided the standard deviation of its slice, as [nanstd]
    computes it, is finite. *)
Theorem zScore_missing_positions (X : ndarray spec_float) (dim : Z) (d : nat) :
  wf_array X -> normalize_axis (length (shape X)) dim = Some d ->
  exists Y,
    zScore_ndarray X dim = Some Y /\ shape Y = shape X /\
    length (data Y) = length (data X) /\
    forall o k i,
      o < outer_size (shape X) d -> k < axis_len (shape X) d ->
      i < inner_size (shape X) d ->
      let j := flat_index (shape X) d o k i in
      let x := nth j (data X) fnan in
      let y := nth j (data Y) fnan in
      (B64.is_nan x = true -> B64.is_nan y = true) /\
      (B64.is_nan x = false ->
       B64.is_finite (nanstd (lane X d o i)) = true ->
       B64.is_finite y = true).
Proof.
  intros Hwf Hax.
  pose proof (normalize_axis_ok _ _ Hax) as Hd.
  exists (zscore_array X d). split; [apply zScore_in_range; exact Hax|].
  split; [reflexivity|]. split; [apply zscore_array_length|].
  intros o k i Ho Hk Hi. cbv zeta.
  rewrite (zscore_array_nth fnan Hwf Hd Ho Hk Hi).
  split.
  - intros Hx. apply b64_is_nan_eq in Hx. rewrite Hx.
    change S754_nan with (@fnan _ Binary64). rewrite znorm_nan. reflexivity.
  - intros Hx Hsig. rewrite <- (lane_nth X d o i Hk) in Hx |- *.
    apply lane_entry_finite; try assumption.
    rewrite lane_length. exact Hk.
Qed.

End MissingValues.

(** C3, as stated, fails.  In [[1e308, 1e308, nan]] the sum of the two
    numbers overflows, the mean is infinite, and every entry of the output
    is NaN, also at the two positions where the input is a finite
    number. *)
Lemma zScore_missing_counterexample :
  let X := array1 [B64.of_Z (10 ^ 308); B64.of_Z (10 ^ 308); S754_nan] in
  B64.is_finite (nth 0 (data X) fnan) = true /\
  B64.is_nan (nth 2 (data X) fnan) = true /\
  B64.is_finite (nanstd (data X)) = false /\
  zScore_ndarray X 0 = Some (array1 [S754_nan; S754_nan; S754_nan]) /\
  missing_preserved_b64 X 0 = false.
Proof.
  cbv zeta.
  split; [reflexivity|]. split; [reflexivity|].
  split; [vm_compute; reflexivity|].
  split; vm_compute; reflexivity.
Qed.

Lemma zScore_missing_positions_witness :
  B64.is_finite (nanstd [B64.of_Z 5; S754_nan; B64.of_Z 7]) = true /\
  exists Y,
    zScore_ndarray (array1 [B64.of_Z 5; S754_nan; B64.of_Z 7]) 0 = Some Y /\
    shape Y = [3] /\ length (data Y) = 3 /\
    forall o k i,
      o < 1 -> k < 3 -> i < 1 ->
      let X := array1 [B64.of_Z 5; S754_nan; B64.of_Z 7] in
      let j := flat_index (shape X) 0 o k i in
      let x := nth j (data X) fnan in
      let y := nth j (data Y) fnan in
      (B64.is_nan x = true -> B64.is_nan y = true) /\
      (B64.is_nan x = false ->
       B64.is_finite (nanstd (lane X 0 o i)) = true ->
       B64.is_finite y = true).
Proof.
  split.
  - vm_compute. reflexivity.
  - apply (@zScore_missing_positions Sequential
             (array1 [B64.of_Z 5; S754_nan; B64.of_Z 7]) 0 0).
    + reflexivity.
    + reflexivity.
Defined.

(** * Constant slices *)

Section ConstantSlices.
Context {O : Order spec_float}.

Lemma count_valid_all (n : nat) : count_valid (repeat false n) = n.
Proof.
  unfold count_valid. induction n as [|n IH]; simpl; [reflexivity|].
  f_equal. exact IH.
Qed.

Lemma finite_not_nan (c : spec_float) :
  B64.is_finite c = true -> B64.is_nan c = false.
Proof. destruct c; simpl; intros H; try discriminate; reflexivity. Qed.

Lemma b64_sub_self (c : spec_float) :
  B64.is_finite c = true -> fsub c c = S754_zero false.
Proof.
  destruct c as [s|s| |s m e]; simpl; intros H; try discriminate.
  - destruct s; reflexivity.
  - rewrite Z.sub_diag. reflexivity.
Qed.

(** A finite quotient leaves [0 / b] a zero. *)
Lemma b64_zero_over_divisor (a b : spec_float) :
  B64.is_finite (fdiv a b) = true ->
  B64.is_zero (fdiv (S754_zero false) b) = true.
Proof.
  destruct a as [sa|sa| |sa ma ea], b as [sb|sb| |sb mb eb]; simpl; intros H;
    try discriminate; reflexivity.
Qed.

(** IEEE equality with a finite non-zero number is identity of the
    representation; with a zero, it is being a zero. *)
Lemma b64_eqb_finite (a : spec_float) (s : bool) (m : positive) (e : Z) :
  SFeqb a (S754_finite s m e) = true -> a = S754_finite s m e.
Proof.
  unfold SFeqb. destruct a as [sa|sa| |sa ma ea]; cbn [SFcompare].
  - destruct sa, s; discriminate.
  - destruct sa; discriminate.
  - discriminate.
  - destruct sa, s; try discriminate;
      destruct (Z.compare_spec ea e) as [He|He|He]; try discriminate;
      destruct (Pos.compare_cont Eq ma m) eqn:Ec; try discriminate;
      intros _; apply Pos.compare_eq in Ec; subst; reflexivity.
Qed.

Lemma b64_eqb_zero (a : spec_float) (s : bool) :
  SFeqb a (S754_zero s) = true -> B64.is_zero a = true.
Proof.
  unfold SFeqb. destruct a as [sa|sa| |sa ma ea]; cbn [SFcompare]; try reflexivity.
  - destruct sa; discriminate.
  - discriminate.
  - destruct sa; discriminate.
Qed.

Lemma b64_eqb_is_finite (a c : spec_float) :
  B64.is_finite c = true -> SFeqb a c = true -> B64.is_finite a = true.
Proof.
  intros Hc He. destruct c as [s|s| |s m e]; try discriminate Hc.
  - apply b64_eqb_zero in He. destruct a; try discriminate He. reflexivity.
  - apply b64_eqb_finite in He. subst a. reflexivity.
Qed.

(** If the mean of a lane is numerically [c], the deviation of [c] is a
    zero. *)
Lemma b64_sub_eqb (c mu : spec_float) :
  B64.is_finite c = true -> SFeqb mu c = true ->
  B64.is_zero (fsub c mu) = true.
Proof.
  intros Hc He. destruct c as [s|s| |s m e]; try discriminate Hc.
  - apply b64_eqb_zero in He. destruct mu as [sm|sm| |sm mm em]; try discriminate He.
    destruct s, sm; reflexivity.
  - apply b64_eqb_finite in He. subst mu.
    rewrite (@b64_sub_self (S754_finite s m e) eq_refl). reflexivity.
Qed.

Lemma b64_zero_squared (z : spec_float) :
  B64.is_zero z = true -> fmul z z = S754_zero false.
Proof.
  destruct z as [s|s| |s m e]; intros H; try discriminate H.
  destruct s; reflexivity.
Qed.

Lemma b64_zero_over_eps (z : spec_float) :
  B64.is_zero z = true -> B64.is_zero (fdiv z feps) = true.
Proof.
  destruct z as [s|s| |s m e]; intros H; try discriminate H. reflexivity.
Qed.

(** A lane that repeats one finite value [c] and whose mean is numerically
    [c]: the deviations are zeros, the standard deviation is a zero, and
    the divisor is the added 1e-7. *)
Lemma constant_lane (c : spec_float) (n : nat) :
  B64.is_finite c = true -> SFeqb (nanmean (repeat c n)) c = true ->
  B64.is_zero (fsub c (nanmean (repeat c n))) = true /\
  fadd (nanstd (repeat c n)) feps = feps.
Proof.
  intros Hc Hmean.
  pose proof (@b64_sub_eqb _ _ Hc Hmean) as Hz.
  split; [exact Hz|].
  pose proof (@b64_eqb_is_finite _ _ Hc Hmean) as Hfin.
  rewrite nanstd_unfold.
  unfold nanmean, replace_nan in Hfin.
  rewrite !map_repeat in *.
  change (fisnan c) with (B64.is_nan c) in *.
  rewrite (@finite_not_nan _ Hc), count_valid_all in *.
  cbv zeta.
  destruct n as [|n]; [vm_compute in Hfin; discriminate Hfin|].
  cbn [Nat.leb].
  rewrite (@b64_zero_squared _ Hz).
  assert (Hsum : np_sum (repeat (S754_zero false) (S n)) = S754_zero false).
  { apply (sums_to_zeros (np_sum_spec _)).
    apply Forall_forall. intros x Hx. apply repeat_spec in Hx. symmetry. exact Hx. }
  rewrite Hsum.
  apply b64_zero_over_divisor in Hfin.
  destruct (fdiv (S754_zero false) (fof_nat (S n))) as [s|s| |s m e];
    try discriminate Hfin.
  destruct s; reflexivity.
Qed.


Lemma b64_eqb_refl (x : spec_float) :
  B64.is_nan x = false -> SFeqb x x = true.
Proof.
  intros H. pose proof (b64_same_refl x) as Hs. unfold B64.same in Hs.
  rewrite H in Hs. exact Hs.
Qed.

(** The mean of a single finite entry is numerically that entry. *)
Lemma nanmean_single (x : spec_float) :
  B64.valid x -> B64.is_finite x = true -> SFeqb (nanmean [x]) x = true.
Proof.
  intros Hv Hf. unfold nanmean, replace_nan. cbn [map].
  change (fisnan x) with (B64.is_nan x). rewrite (@finite_not_nan _ Hf).
  change (fdiv (np_sum [x]) (fof_nat (count_valid [false])))
    with (fdiv (fadd fzero x) fone).
  rewrite (b64_div_one (b64_add_zero_valid Hv)).
  destruct x as [s|s| |s m e]; try discriminate Hf.
  - destruct s; reflexivity.
  - apply (@b64_eqb_refl (S754_finite s m e)). reflexivity.
Qed.

(** X4.  Normalizing along an axis of length one returns zeros: when every
    entry is a finite [float64] number, each slice holds one value, its
    mean is numerically that value, and every entry of [zScore X d] is a
    zero.  A 0-dimensional array is the case of one slice. *)
Theorem zScore_single_entry_slices (X : ndarray spec_float) (dim : Z) (d : nat) :
  wf_array X -> normalize_axis (length (shape X)) dim = Some d ->
  axis_len (shape X) d = 1 ->
  Forall (fun x => B64.valid x /\ B64.is_finite x = true) (data X) ->
  exists Y,
    zScore_ndarray X dim = Some Y /\ shape Y = shape X /\
    length (data Y) = length (data X) /\
    Forall (fun y => B64.is_zero y = true) (data Y).
Proof.
  intros Hwf Hax Hlen Hfin. pose proof (normalize_axis_ok _ _ Hax) as Hd.
  exists (zscore_array X d). split; [apply zScore_in_range; exact Hax|].
  split; [reflexivity|]. split; [apply zscore_array_length|].
  apply Forall_forall. intros y Hy.
  destruct (In_nth _ _ fnan Hy) as [j [Hj Ey]].
  rewrite zscore_array_length in Hj.
  assert (Hj' : j < prod_shape (shape X)) by (rewrite <- Hwf; exact Hj).
  destruct (flat_index_decompose Hd Hj') as [o [k [i [Ho [Hk [Hi Ej]]]]]].
  rewrite <- Ey, Ej, (zscore_array_nth fnan Hwf Hd Ho Hk Hi).
  assert (k = 0) as -> by lia.
  assert (Hl : lane X d o i = [nth (flat_index (shape X) d o 0 i) (data X) fnan]).
  { unfold lane. rewrite Hlen. reflexivity. }
  rewrite Forall_forall in Hfin.
  destruct (Hfin _ (nth_In _ fnan (eq_ind _ (fun n => n < _) Hj _ Ej)))
    as [Hv Hf].
  set (x := nth (flat_index (shape X) d o 0 i) (data X) fnan) in *.
  rewrite Hl. unfold znorm.
  destruct (@constant_lane x 1 Hf (nanmean_single Hv Hf)) as [Hz Hdiv].
  change (repeat x 1) with [x] in Hz, Hdiv. rewrite Hdiv.
  apply b64_zero_over_eps. exact Hz.
Qed.

End ConstantSlices.



Lemma zScore_single_entry_slices_witness :
  exists Y,
    zScore_ndarray {| shape := [1; 3]; data := map B64.of_Z [4; 5; 6]%Z |} 0 = Some Y /\
    shape Y = [1; 3] /\ length (data Y) = 3 /\
    Forall (fun y => B64.is_zero y = true) (data Y).
Proof.
  apply (@zScore_single_entry_slices Sequential
           {| shape := [1; 3]; data := map B64.of_Z [4; 5; 6]%Z |} 0 0).
  - reflexivity.
  - reflexivity.
  - reflexivity.
  - repeat constructor.
Defined.

(** * Normalizing a normalized array *)

Section Idempotence.
Context {O : Order spec_float}.

Lemma all_lanes_spec (P : list spec_float -> bool) (X : ndarray spec_float)
    (d o i : nat) :
  all_lanes P X d = true ->
  o < outer_size (shape X) d -> i < inner_size (shape X) d ->
  P (lane X d o i) = true.
Proof.
  unfold all_lanes. intros H Ho Hi.
  rewrite forallb_forall in H.
  specialize (H o ltac:(apply in_seq; lia)).
  rewrite forallb_forall in H.
  apply (H i). apply in_seq. lia.
Qed.

(** Subtracting a zero mean and dividing by a finite non-zero number gives
    numerically the quotient of the entry. *)
Lemma b64_sub_zero_div (x mu c : spec_float) :
  B64.is_zero mu = true -> (exists s m e, c = S754_finite s m e) ->
  B64.same (fdiv (fsub x mu) c) (fdiv x c) = true.
Proof.
  intros Hmu [s [m [e ->]]].
  destruct mu as [sm|sm| |sm mm em]; try discriminate Hmu.
  destruct x as [sx|sx| |sx mx ex].
  - destruct sx, sm, s; reflexivity.
  - apply b64_same_refl.
  - reflexivity.
  - apply b64_same_refl.
Qed.

(** C5, amended.  If every slice of [X] along the in-range axis [d] has
    mean 0 and standard deviation 1, both as computed and compared in
    binary64, then every entry of [zScore X d] is numerically the binary64
    quotient of the entry of [X] by [1.0 + 1e-7]. *)
Theorem zScore_idempotent (X : ndarray spec_float) (dim : Z) (d : nat) :
  wf_array X -> normalize_axis (length (shape X)) dim = Some d ->
  normalized_b64 X d = true ->
  exists Y,
    zScore_ndarray X dim = Some Y /\ shape Y = shape X /\
    length (data Y) = length (data X) /\
    forall j, j < length (data X) ->
      B64.same (nth j (data Y) fnan)
               (fdiv (nth j (data X) fnan) (fadd fone feps)) = true.
Proof.
  intros Hwf Hax Hnorm.
  pose proof (normalize_axis_ok _ _ Hax) as Hd.
  exists (zscore_array X d). split; [apply zScore_in_range; exact Hax|].
  split; [reflexivity|]. split; [apply zscore_array_length|].
  intros j Hj.
  assert (Hj' : j < prod_shape (shape X)) by (rewrite <- Hwf; exact Hj).
  destruct (flat_index_decompose Hd Hj') as [o [k [i [Ho [Hk [Hi Ej]]]]]].
  rewrite Ej, (zscore_array_nth fnan Hwf Hd Ho Hk Hi).
  pose proof (all_lanes_spec _ _ _ Hnorm Ho Hi) as Hl. cbv beta in Hl.
  apply andb_true_iff in Hl. destruct Hl as [Hmean Hstd].
  apply b64_eqb_zero in Hmean.
  change (@fone _ Binary64) with (S754_finite false 4503599627370496 (-52)) in Hstd.
  apply b64_eqb_finite in Hstd.
  unfold znorm. rewrite Hstd.
  change (S754_finite false 4503599627370496 (-52)) with (@fone _ Binary64).
  apply b64_sub_zero_div; [exact Hmean|].
  vm_compute. eexists _, _, _. reflexivity.
Qed.

End Idempotence.

(** C5, as stated, fails.  The series [2, -0.5, -0.5, -0.5, -0.5] has mean
    exactly 0 and standard deviation exactly 1, and [zScore] maps its first
    entry to 1.9999998000000199, which is 2e-7 away from 2. *)
Lemma zScore_idempotent_counterexample :
  let X := array1 [B64.of_Z 2; B64.lit (-1) 2; B64.lit (-1) 2;
                   B64.lit (-1) 2; B64.lit (-1) 2] in
  no_missing X /\
  normalize_axis (length (shape X)) 0 = Some 0 /\
  normalized_b64 X 0 = true /\
  option_map (fun Y => B64.within B64.eps (nth 0 (data Y) fnan) (B64.of_Z 2))
             (zScore_ndarray X 0) = Some false /\
  close_to_input_b64 X 0 = false.
Proof.
  cbv zeta.
  split; [repeat constructor|].
  split; [reflexivity|].
  split; [vm_compute; reflexivity|].
  split; vm_compute; reflexivity.
Qed.

Lemma zScore_idempotent_witness :
  let X := array1 [B64.of_Z 2; B64.lit (-1) 2; B64.lit (-1) 2;
                   B64.lit (-1) 2; B64.lit (-1) 2] in
  exists Y,
    zScore_ndarray X 0 = Some Y /\ shape Y = shape X /\
    length (data Y) = length (data X) /\
    forall j, j < length (data X) ->
      B64.same (nth j (data Y) fnan)
               (fdiv (nth j (data X) fnan) (fadd fone feps)) = true.
Proof.
  apply (@zScore_idempotent Sequential
           (array1 [B64.of_Z 2; B64.lit (-1) 2; B64.lit (-1) 2;
                    B64.lit (-1) 2; B64.lit (-1) 2]) 0 0).
  - reflexivity.
  - reflexivity.
  - vm_compute. reflexivity.
Defined.

(** * Statistics and translation: what binary64 does

    The output of [zScore] does not have standard deviation 1 within 1e-7,
    and [zScore] is not invariant under translation: two computations. *)

(** [zScore([1., 1.])] is [[0., 0.]], whose standard deviation is 0, and
    [zScore([0., 1.])] is [[-0.9999998..., 0.9999998...]], whose standard
    deviation differs from 1 by about 2e-7.  Neither input has a missing
    value and axis 0 is in range. *)
Lemma zScore_unit_statistics_counterexample :
  let X1 := array1 [B64.of_Z 1; B64.of_Z 1] in
  let X2 := array1 [B64.of_Z 0; B64.of_Z 1] in
  zScore_ndarray X1 0 = Some (array1 [S754_zero false; S754_zero false]) /\
  nanstd [S754_zero false; S754_zero false] = S754_zero false /\
  unit_statistics_b64 X1 0 = false /\
  option_map (fun Y2 => B64.within B64.eps (nanstd (data Y2)) fone)
             (zScore_ndarray X2 0) = Some false /\
  unit_statistics_b64 X2 0 = false.
Proof.
  cbv zeta.
  split; [vm_compute; reflexivity|].
  split; [vm_compute; reflexivity|].
  split; [vm_compute; reflexivity|].
  split; vm_compute; reflexivity.
Qed.

(** Adding 1 to [0.1, 0.2, 0.3] rounds the entries, and the two normalized
    arrays differ (the middle entry is -3.4e-16 before the shift and 0
    after it).  Adding 1e17 to [0, 1] absorbs the data altogether: the
    shifted array is constant and normalizes to zeros, while
    [zScore([0., 1.])] is about [-1, 1]. *)
Lemma zScore_translation_counterexample :
  let X1 := array1 [B64.lit 1 10; B64.lit 2 10; B64.lit 3 10] in
  let X2 := array1 [B64.of_Z 0; B64.of_Z 1] in
  no_missing X1 /\ no_missing X2 /\
  translation_invariant_b64 X1 (B64.of_Z 1) 0 = false /\
  zScore_ndarray (add_scalar X2 (B64.of_Z (10 ^ 17))) 0
  = Some (array1 [S754_zero false; S754_zero false]) /\
  translation_invariant_b64 X2 (B64.of_Z (10 ^ 17)) 0 = false.
Proof.
  cbv zeta.
  split; [repeat constructor|].
  split; [repeat constructor|].
  split; [vm_compute; reflexivity|].
  split; vm_compute; reflexivity.
Qed.

(** * Further properties of the normalizer *)

Section SliceWise.
Context {F : Type} {A : Arith F} {O : Order F}.

(** X1.  For every well-formed array and in-range axis, in every order of
    summation, [zScore] returns a well-formed array of the same shape, and
    each slice of the output along the axis is the same slice of the input
    normalized with that slice's own mean and standard deviation: slices do
    not influence each other. *)
Theorem zScore_slicewise (X : ndarray F) (dim : Z) (d : nat) :
  wf_array X -> normalize_axis (length (shape X)) dim = Some d ->
  exists Y,
    zScore_ndarray X dim = Some Y /\ shape Y = shape X /\ wf_array Y /\
    forall o i,
      o < outer_size (shape X) d -> i < inner_size (shape X) d ->
      lane Y d o i
      = map (znorm (nanmean (lane X d o i)) (nanstd (lane X d o i)))
            (lane X d o i).
Proof.
  intros Hwf Hax. pose proof (normalize_axis_ok _ _ Hax) as Hd.
  exists (zscore_array X d). split; [apply zScore_in_range; exact Hax|].
  split; [reflexivity|]. split; [apply zscore_array_wf; exact Hwf|].
  intros o i Ho Hi. apply zscore_array_lane; assumption.
Qed.

(** X2.  [zScore] raises exactly when the axis is out of range.  On an
    array of [ndim >= 1] dimensions the range is [-ndim <= dim < ndim]; on
    a 0-dimensional array the axes 0 and -1 are accepted.  An in-range
    negative axis [dim] gives the result of the axis [dim + ndim], and on a
    0-dimensional array the axis -1 gives the result of the axis 0. *)
Theorem zScore_axis_range (X : ndarray F) (dim : Z) :
  (zScore_ndarray X dim = None <->
   ~ ((- Z.of_nat (length (shape X)) <= dim < Z.of_nat (length (shape X)))%Z \/
      (length (shape X) = 0 /\ (-1 <= dim <= 0)%Z))) /\
  ((- Z.of_nat (length (shape X)) <= dim < 0)%Z ->
   zScore_ndarray X dim = zScore_ndarray X (dim + Z.of_nat (length (shape X)))) /\
  (length (shape X) = 0 -> zScore_ndarray X (-1) = zScore_ndarray X 0).
Proof.
  unfold zScore_ndarray, normalize_axis.
  destruct (length (shape X)) as [|m] eqn:En.
  - cbn [Z.of_nat]. split; [|split].
    + destruct (Z.eqb_spec dim 0) as [E0|E0];
        [|destruct (Z.eqb_spec dim (-1)) as [E1|E1]]; cbn [orb].
      * split; [discriminate|]. intros Hyp. exfalso. apply Hyp.
        right. split; [reflexivity|lia].
      * split; [discriminate|]. intros Hyp. exfalso. apply Hyp.
        right. split; [reflexivity|lia].
      * split; [|reflexivity]. intros _ [Hr|[_ Hr]]; lia.
    + lia.
    + reflexivity.
  - set (n := Z.of_nat (S m)). assert (Hn : (0 < n)%Z) by (unfold n; lia).
    split; [|split].
    + destruct ((0 <=? dim) && (dim <? n))%Z eqn:E1;
        [|destruct ((- n <=? dim) && (dim <? 0))%Z eqn:E2].
      * split; [discriminate|]. intros Hyp. exfalso. apply Hyp. left.
        apply andb_true_iff in E1. destruct E1 as [Ha Hb].
        apply Z.leb_le in Ha. apply Z.ltb_lt in Hb. lia.
      * split; [discriminate|]. intros Hyp. exfalso. apply Hyp. left.
        apply andb_true_iff in E2. destruct E2 as [Ha Hb].
        apply Z.leb_le in Ha. apply Z.ltb_lt in Hb. lia.
      * split; [|reflexivity]. intros _ [Hr|[Hr _]]; [|discriminate Hr].
        apply andb_false_iff in E1, E2.
        rewrite !Z.leb_gt, !Z.ltb_ge in E1, E2. lia.
    + intros [H1 H2].
      destruct (Z.leb_spec 0 dim); [lia|]. cbn [andb].
      destruct (Z.leb_spec (- n) dim); [|lia].
      destruct (Z.ltb_spec dim 0); [|lia]. cbn [andb].
      destruct (Z.leb_spec 0 (dim + n)); [|lia].
      destruct (Z.ltb_spec (dim + n) n); [|lia]. reflexivity.
    + discriminate.
Qed.

(** X11.  An array with a dimension of size zero is no error: for every
    in-range axis [zScore] returns the empty array of the same shape. *)
Theorem zScore_empty (X : ndarray F) (dim : Z) (d : nat) :
  wf_array X -> In 0 (shape X) ->
  normalize_axis (length (shape X)) dim = Some d ->
  zScore_ndarray X dim = Some {| shape := shape X; data := [] |}.
Proof.
  intros Hwf H0 Hax. rewrite (zScore_in_range X dim Hax). f_equal.
  apply ndarray_eq; [reflexivity|]. cbn [data].
  apply length_zero_iff_nil.
  rewrite zscore_array_length, Hwf. apply prod_shape_zero. exact H0.
Qed.

End SliceWise.

Lemma zScore_slicewise_witness :
  let X := {| shape := [3; 2];
              data := map B64.of_Z [1; 2; 3; 4; 5; 6]%Z |} in
  exists Y,
    zScore_ndarray X 0 = Some Y /\ shape Y = [3; 2] /\ wf_array Y /\
    forall o i,
      o < 1 -> i < 2 ->
      lane Y 0 o i
      = map (znorm (nanmean (lane X 0 o i)) (nanstd (lane X 0 o i)))
            (lane X 0 o i).
Proof.
  apply (@zScore_slicewise _ Binary64 Sequential
           {| shape := [3; 2]; data := map B64.of_Z [1; 2; 3; 4; 5; 6]%Z |} 0 0).
  - reflexivity.
  - reflexivity.
Defined.

Lemma zScore_empty_witness :
  zScore_ndarray {| shape := [0; 3]; data := @nil spec_float |} 0
  = Some {| shape := [0; 3]; data := [] |}.
Proof.
  apply (@zScore_empty _ Binary64 Sequential {| shape := [0; 3]; data := [] |} 0 0).
  - reflexivity.
  - left. reflexivity.
  - reflexivity.
Defined.
